(** * Solvers.ipynb: four problems posed as constraint sets

    The notebook builds Z3 expressions with the Python operators, hands them
    to a [Solver] (or an [Optimize]) and reads values back from the returned
    model.  The expressions are data of the program, so they are embedded
    as a syntax tree [expr]; the notebook's own functions ([in_range],
    [amount], [display], [cell], the list comprehensions) are Rocq functions
    building or reading such trees.  The solver is the external
    collaborator: it is represented by its contract, a model in which every
    submitted assertion evaluates to true. *)

From Stdlib Require Import List String Ascii ZArith Bool Arith Lia Permutation.
From Stdlib Require Import Reals Lra DecimalString.
Import ListNotations.

Open Scope string_scope.
Open Scope list_scope.
Open Scope Z_scope.

(** ** Python helpers *)

Module Py.

(** [range(n)] *)
Definition range (n : nat) : list nat := seq 0 n.

(** [range(start, stop, step)] for a positive step. *)
Definition range3 (start stop step : nat) : list nat :=
  map (fun k => (start + k * step)%nat)
      (seq 0 ((stop - start + (step - 1)) / step)).

(** [l[a:b]] for indices that are not negative. *)
Definition slice {A} (l : list A) (a b : nat) : list A :=
  firstn (b - a) (skipn a l).

(** [l[a::step]]: every [step]-th element from index [a] on. *)
Definition slice_step {A} (l : list A) (a step : nat) : list A :=
  flat_map (fun k => match nth_error l k with Some x => [x] | None => [] end)
           (range3 a (List.length l) step).

(** [enumerate(l)] *)
Definition enumerate {A} (l : list A) : list (nat * A) :=
  combine (seq 0 (List.length l)) l.

(** [itertools.product(range(n), repeat=2)] *)
Definition product2 (n : nat) : list (nat * nat) :=
  flat_map (fun i => map (fun j => (i, j)) (range n)) (range n).

(** [str(n)] for an integer. *)
Definition str_nat (n : nat) : string := NilZero.string_of_uint (Nat.to_uint n).
Definition str_int (z : Z) : string := NilZero.string_of_int (Z.to_int z).

(** [c in chars] for a one-character string [c]. *)
Definition char_in (c : ascii) (chars : string) : bool :=
  existsb (Ascii.eqb c) (list_ascii_of_string chars).

(** [s.split(" ")] *)
Fixpoint split_on (sep : ascii) (cur : string) (s : string) : list string :=
  match s with
  | EmptyString => [cur]
  | String c rest =>
      if Ascii.eqb c sep then cur :: split_on sep "" rest
      else split_on sep (cur ++ String c "")%string rest
  end.
Definition split (s : string) : list string := split_on " "%char "" s.

(** [int(c)] for a one-character string holding a decimal digit. *)
Definition int_of_char (c : ascii) : option Z :=
  let n := nat_of_ascii c in
  if ((48 <=? n) && (n <=? 57))%nat then Some (Z.of_nat (n - 48)) else None.

(** [l[i]] for any integer: a negative index counts from the end, and an
    index outside [-len .. len-1] raises. *)
Definition index {A} (l : list A) (i : Z) : option A :=
  let len := Z.of_nat (List.length l) in
  if i <? 0 then
    if i + len <? 0 then None else nth_error l (Z.to_nat (i + len))
  else nth_error l (Z.to_nat i).

(** A list without repeated elements, for a boolean equality. *)
Fixpoint nodupb {A} (eqb : A -> A -> bool) (l : list A) : bool :=
  match l with
  | [] => true
  | x :: rest => negb (existsb (eqb x) rest) && nodupb eqb rest
  end.

End Py.

(** ** The solver's terms, values and models *)

Module Z3.

Inductive sort := RealSort | IntSort | BoolSort.

(** A declared constant: identity is the name together with the sort. *)
Record const := MkConst { name : string; sort_of : sort }.

Definition Real (n : string) : const := MkConst n RealSort.
Definition Int (n : string) : const := MkConst n IntSort.
Definition Bool (n : string) : const := MkConst n BoolSort.

(** [Reals('u v s a t')] and [Ints('S E N ...')] split the names on spaces. *)
Definition Reals (names : string) : list const := map Real (Py.split names).
Definition Ints (names : string) : list const := map Int (Py.split names).

Definition sort_eqb (a b : sort) : bool :=
  match a, b with
  | RealSort, RealSort | IntSort, IntSort | BoolSort, BoolSort => true
  | _, _ => false
  end.

(** Terms as the overloaded Python operators build them.  A Python integer
    that meets a term is turned into a numeral, [Num]. *)
#[warnings="-register-all"]
Inductive expr : Type :=
| Const (c : const)
| Num (n : Z)
| Add (a b : expr)
| Mul (a b : expr)
| Div (a b : expr)
| Eq (a b : expr)
| Ne (a b : expr)
| Le (a b : expr)
| Lt (a b : expr)
| Ge (a b : expr)
| And (a b : expr)
| If (c a b : expr)
| Distinct (args : list expr).

Coercion Const : const >-> expr.

Inductive value := VReal (r : R) | VInt (z : Z) | VBool (b : bool).

(** A model interprets constants sort by sort, so the value it gives to a
    constant always has the constant's sort; a constant it does not
    interpret has no value ([model[x]] is [None]). *)
Record model := MkModel {
  real_interp : string -> option R;
  int_interp : string -> option Z;
  bool_interp : string -> option bool
}.

Definition get_interp (m : model) (c : const) : option value :=
  match sort_of c with
  | RealSort => option_map VReal (real_interp m (name c))
  | IntSort => option_map VInt (int_interp m (name c))
  | BoolSort => option_map VBool (bool_interp m (name c))
  end.

Definition Req_bool (x y : R) : bool := if Req_dec_T x y then true else false.
Definition Rle_bool (x y : R) : bool := if Rle_dec x y then true else false.
Definition Rlt_bool (x y : R) : bool := if Rlt_dec x y then true else false.

(** Arithmetic on two numbers; an integer meeting a real is read as a real. *)
Definition arith (fz : Z -> Z -> option Z) (fr : R -> R -> R) (x y : value)
  : option value :=
  match x, y with
  | VInt a, VInt b => option_map VInt (fz a b)
  | VInt a, VReal b => Some (VReal (fr (IZR a) b))
  | VReal a, VInt b => Some (VReal (fr a (IZR b)))
  | VReal a, VReal b => Some (VReal (fr a b))
  | _, _ => None
  end.

Definition compare (fz : Z -> Z -> bool) (fr : R -> R -> bool) (x y : value)
  : option bool :=
  match x, y with
  | VInt a, VInt b => Some (fz a b)
  | VInt a, VReal b => Some (fr (IZR a) b)
  | VReal a, VInt b => Some (fr a (IZR b))
  | VReal a, VReal b => Some (fr a b)
  | _, _ => None
  end.

Definition equal (x y : value) : option bool :=
  match x, y with
  | VBool a, VBool b => Some (Bool.eqb a b)
  | _, _ => compare Z.eqb Req_bool x y
  end.

Definition bind {A B} (o : option A) (f : A -> option B) : option B :=
  match o with Some a => f a | None => None end.

Notation "x <- e ;; k" := (bind e (fun x => k))
  (at level 61, e at next level, right associativity).

Definition bind2 {A B C} (f : A -> B -> option C) (x : option A) (y : option B)
  : option C :=
  bind x (fun a => bind y (fun b => f a b)).

Fixpoint sequence {A} (l : list (option A)) : option (list A) :=
  match l with
  | [] => Some []
  | o :: rest => bind o (fun a => option_map (cons a) (sequence rest))
  end.

(** [v] differs from every element of [vs]. *)
Fixpoint differs_from_all (v : value) (vs : list value) : option bool :=
  match vs with
  | [] => Some true
  | w :: rest =>
      bind (equal v w) (fun e =>
      option_map (andb (negb e)) (differs_from_all v rest))
  end.

(** [Distinct]: the values are pairwise different. *)
Fixpoint pairwise_distinct (vs : list value) : option bool :=
  match vs with
  | [] => Some true
  | v :: rest =>
      bind (differs_from_all v rest) (fun d =>
      option_map (andb d) (pairwise_distinct rest))
  end.

Definition as_bool (v : value) : option bool :=
  match v with VBool b => Some b | _ => None end.

(** Modelled from the spec: the solver is an external collaborator, and
    this is its reading of a term in a model, the usual one of arithmetic
    and logic.  [None]: some constant has no interpretation, or the term is
    ill-sorted.  Division is only defined when a real is involved (the
    notebook divides reals only). *)
Fixpoint eval (m : model) (e : expr) : option value :=
  match e with
  | Const c => get_interp m c
  | Num n => Some (VInt n)
  | Add a b => bind2 (arith (fun x y => Some (x + y)) Rplus) (eval m a) (eval m b)
  | Mul a b => bind2 (arith (fun x y => Some (x * y)) Rmult) (eval m a) (eval m b)
  | Div a b => bind2 (arith (fun _ _ => None) Rdiv) (eval m a) (eval m b)
  | Eq a b => option_map VBool (bind2 equal (eval m a) (eval m b))
  | Ne a b => option_map (fun e => VBool (negb e)) (bind2 equal (eval m a) (eval m b))
  | Le a b => option_map VBool (bind2 (compare Z.leb Rle_bool) (eval m a) (eval m b))
  | Lt a b => option_map VBool (bind2 (compare Z.ltb Rlt_bool) (eval m a) (eval m b))
  | Ge a b =>
      option_map VBool
        (bind2 (compare Z.geb (fun x y => Rle_bool y x)) (eval m a) (eval m b))
  | And a b =>
      option_map VBool
        (bind2 (fun x y => Some (andb x y))
               (bind (eval m a) as_bool) (bind (eval m b) as_bool))
  | If c a b =>
      bind (bind (eval m c) as_bool) (fun t =>
      bind2 (fun x y => Some (if t then x else y)) (eval m a) (eval m b))
  | Distinct args =>
      option_map VBool (bind (sequence (map (eval m) args)) pairwise_distinct)
  end.

(** An assertion holds in a model when it evaluates to true. *)
Definition holds (m : model) (e : expr) : Prop := eval m e = Some (VBool true).

Definition holdsb (m : model) (e : expr) : bool :=
  match eval m e with Some (VBool true) => true | _ => false end.

(** A solver is the list of the assertions added so far; [add] takes one
    assertion or a list of them. *)
Definition solver := list expr.
Definition Solver : solver := [].
Definition add (s : solver) (es : list expr) : solver := s ++ es.

(** Modelled from the spec: what [check()] followed by [model()]
    promises, a concrete assignment of values to variables satisfying all
    submitted constraints. *)
Definition is_model (m : model) (s : solver) : Prop := Forall (holds m) s.

(** Modelled from the spec: what [Optimize.check()], [model()] and
    [objective.value()] promise together for [maximize(objective)], a model
    of the assertions, the value of the objective in it, and no model with
    a greater one. *)
Definition is_maximum (s : solver) (objective : expr) (m : model) (best : Z) : Prop :=
  is_model m s /\
  eval m objective = Some (VInt best) /\
  forall m' v', is_model m' s -> eval m' objective = Some (VInt v') -> v' <= best.

Definition const_eqb (x y : const) : bool :=
  String.eqb (name x) (name y) && sort_eqb (sort_of x) (sort_of y).

(** The constants a term mentions. *)
Fixpoint constants (e : expr) : list const :=
  match e with
  | Const c => [c]
  | Num _ => []
  | Add a b | Mul a b | Div a b | Eq a b | Ne a b
  | Le a b | Lt a b | Ge a b | And a b => constants a ++ constants b
  | If c a b => constants c ++ constants a ++ constants b
  | Distinct args => flat_map constants args
  end.

(** Every constant of the terms is one of the declared ones. *)
Definition uses_only (decls : list const) (terms : list expr) : Prop :=
  Forall (fun c => In c decls) (flat_map constants terms).

Definition uses_onlyb (decls : list const) (terms : list expr) : bool :=
  forallb (fun c => existsb (const_eqb c) decls) (flat_map constants terms).

(** No two declared constants share a name with different sorts. *)
Definition consistent_naming (decls : list const) : Prop :=
  forall x y, In x decls -> In y decls -> name x = name y -> sort_of x = sort_of y.

(** [model[x].as_long()]: the Python integer of an integer value, also of a
    real value that is an integer (any other real raises).  Without an
    interpretation [model[x]] is [None], which has no such method, and
    neither has a Boolean value. *)
Definition as_long (v : option value) : option Z :=
  match v with
  | Some (VInt z) => Some z
  | Some (VReal r) =>
      if Req_dec_T r (IZR (Int_part r)) then Some (Int_part r) else None
  | _ => None
  end.

End Z3.

Import Z3.

(** ** Example: uniform acceleration *)

Module Kinematics.

Definition variables : list const := Reals "u v s a t".

Definition u := Real "u".
Definition v := Real "v".
Definition s := Real "s".
Definition a := Real "a".
Definition t := Real "t".

(** [v == u + a*t] and [s == u*t + a*t*t/2], with Python's precedence. *)
Definition rules : list expr :=
  [ Eq v (Add u (Mul a t));
    Eq s (Add (Mul u t) (Div (Mul (Mul a t) t) (Num 2))) ].

Definition bindings : list expr :=
  [ Eq u (Num 10); Eq a (Num 1); Eq v (Num 20) ].

(** [solve(u == 10, a == 1, v == 20, *rules)] *)
Definition solve_call : solver := add Solver (bindings ++ rules).

(** The reals a model gives to the five variables. *)
Definition assigns (m : model) (vu va vv vt vs : R) : Prop :=
  real_interp m "u" = Some vu /\ real_interp m "a" = Some va /\
  real_interp m "v" = Some vv /\ real_interp m "t" = Some vt /\
  real_interp m "s" = Some vs.

(** The model the notebook prints, for any five reals. *)
Definition model_of (vu va vv vt vs : R) : model :=
  MkModel
    (fun n => if String.eqb n "u" then Some vu
              else if String.eqb n "a" then Some va
              else if String.eqb n "v" then Some vv
              else if String.eqb n "t" then Some vt
              else if String.eqb n "s" then Some vs
              else None)
    (fun _ => None) (fun _ => None).


(** [solve(u == ku, a == ka, v == kv, *rules)] for any three integers. *)
Definition solve_with (ku ka kv : Z) : solver :=
  add Solver ([Eq u (Num ku); Eq a (Num ka); Eq v (Num kv)] ++ rules).

End Kinematics.

(** ** [in_range], shared by the cryptarithm and the Sudoku *)

(** [[And(lo <= var, var < hi) for var in vars]].  With a Python integer on
    the left, [lo <= var] is answered by the term's reflected comparison,
    which builds [var >= lo]. *)
Definition in_range (lo hi : Z) (vars : list expr) : list expr :=
  map (fun var => And (Ge var (Num lo)) (Lt var (Num hi))) vars.

(** A number lies in the half-open interval from [lo] to [hi]. *)
Definition within (lo hi : Z) (x : value) : Prop :=
  match x with
  | VInt z => lo <= z /\ z < hi
  | VReal r => (IZR lo <= r /\ r < IZR hi)%R
  | VBool _ => False
  end.

(** ** Example: SEND + MORE = MONEY *)

Module Cryptarithm.

Definition variables : list const := Ints "S E N D M O R Y".

Definition S := Int "S".
Definition E := Int "E".
Definition N := Int "N".
Definition D := Int "D".
Definition M := Int "M".
Definition O := Int "O".
Definition R := Int "R".
Definition Y := Int "Y".

Definition plus (x y : expr) : expr := Add x y.
Definition times (k : Z) (x : expr) : expr := Mul (Num k) x.
Local Infix "+'" := plus (at level 50, left associativity).
Local Infix "*'" := times (at level 40, left associativity).

Definition send_more : expr :=
  1000 *' S +' 100 *' E +' 10 *' N +' D +'
  1000 *' M +' 100 *' O +' 10 *' R +' E.

Definition money : expr :=
  10000 *' M +' 1000 *' O +' 100 *' N +' 10 *' E +' Y.

Definition letters : list expr := [S : expr; E : expr; N : expr; D : expr;
                                   M : expr; O : expr; R : expr; Y : expr].

(** The four [s.add] calls on a fresh solver. *)
Definition s : solver :=
  let s := Solver in
  let s := add s [Eq send_more money] in
  let s := add s [Distinct letters] in
  let s := add s (in_range 0 10 letters) in
  add s (in_range 1 10 [S : expr; M : expr]).

(** [amount]: the loop [v = v * 10 + model[digit].as_long()] from [v = 0]. *)
Definition amount (model : model) (digits : list const) : option Z :=
  fold_left
    (fun v digit => v <- v ;; d <- as_long (get_interp model digit) ;; Some (v * 10 + d))
    digits (Some 0).

(** The values of the digits in the model, when each has an integer one. *)
Definition digit_values (model : model) (digits : list const) : option (list Z) :=
  sequence (map (fun digit => as_long (get_interp model digit)) digits).

(** The positional weighted sum of [k] values: value [i] weighs
    [10^(k-1-i)]. *)
Definition positional_sum (vs : list Z) : Z :=
  let k := List.length vs in
  fold_right Z.add 0
    (map (fun i => nth i vs 0 * 10 ^ Z.of_nat (k - 1 - i)) (seq 0 k)).

(** The integer a model gives to a letter. *)
Definition digit (m : model) (x : const) : option Z := int_interp m (name x).

(** The decimal addition SEND + MORE = MONEY on digits. *)
Definition adds_up (s e n d m o r y : Z) : Prop :=
  (1000 * s + 100 * e + 10 * n + d) + (1000 * m + 100 * o + 10 * r + e) =
  10000 * m + 1000 * o + 100 * n + 10 * e + y.

(** A search for the digit assignments: [m] and [s] are forced to 1 and 9
    by the size of the sum, [y] by the other digits. *)
Definition digits10 : list Z := map Z.of_nat (seq 0 10).

Definition acceptable (vs : list Z) : bool :=
  Py.nodupb Z.eqb vs && forallb (fun z => (0 <=? z) && (z <=? 9)) vs.

Definition candidates : list (list Z) :=
  flat_map (fun e => flat_map (fun n => flat_map (fun d =>
  flat_map (fun o => map (fun r =>
    [9; e; n; d; 1; o; r; 91 * e + d + 10 * r - 900 * o - 90 * n])
  digits10) digits10) digits10) digits10) digits10.

Definition solutions : list (list Z) := filter acceptable candidates.

(** A model giving the letters S, E, N, D, M, O, R, Y the listed digits. *)
Definition model_of (vs : list Z) : model :=
  MkModel (fun _ => None)
    (fun n => option_map snd
       (find (fun p => String.eqb (fst p) n) (combine (map name variables) vs)))
    (fun _ => None).


(** The loop of [amount] run on the digits' values themselves. *)
Definition horner (vs : list Z) : Z := fold_left (fun v d => v * 10 + d) vs 0.


(** The model gives the digit the integer [v]. *)
Definition has_integer (m : model) (d : const) (v : Z) : Prop :=
  get_interp m d = Some (VInt v) \/ get_interp m d = Some (VReal (IZR v)).

End Cryptarithm.

(** ** Example: Sudoku *)

Module Sudoku.

Definition sq3x3 : list (nat * nat) := Py.product2 3.

Definition nl : string := String (ascii_of_nat 10) "".

Definition puzzle : string :=
  ("   | 94| 3 " ++ nl ++
   "   |51 |  7" ++ nl ++
   " 89|   | 4 " ++ nl ++
   "---+---+---" ++ nl ++
   "   |   |2 8" ++ nl ++
   " 6 |2 1| 5 " ++ nl ++
   "1 2|   |   " ++ nl ++
   "---+---+---" ++ nl ++
   " 7 |   |52 " ++ nl ++
   "9  | 65|   " ++ nl ++
   " 4 |97 |   " ++ nl)%string.

Definition cells : list const := map (fun s => Int (Py.str_nat s)) (Py.range 81).

(** [c in ' 123456789'] and [c in '123456789'] *)
Definition is_placeholder (c : ascii) : bool := Py.char_in c " 123456789".
Definition is_clue (c : ascii) : bool := Py.char_in c "123456789".

Section Display.

(** How the solver prints a real value; no cell has one. *)
Variable real_str : R -> string.
Variable model : model.

(** [str(model[x])]; a constant without interpretation prints as [None]. *)
Definition str_value (v : option value) : string :=
  match v with
  | None => "None"
  | Some (VInt z) => Py.str_int z
  | Some (VBool b) => if b then "True" else "False"
  | Some (VReal r) => real_str r
  end.

(** One character of the template: the piece to join and the counter
    afterwards.  [next(vs)] gives the counter and advances it; [cells[k]]
    raises when [k] is out of range. *)
Definition display_char (vs : nat) (c : ascii) : option (nat * string) :=
  if is_placeholder c then
    x <- nth_error cells vs ;; Some (Datatypes.S vs, str_value (get_interp model x))
  else Some (vs, String c "").

(** The generator over the template, joined, from counter [vs]: the final
    counter and the string. *)
Fixpoint display_from (vs : nat) (template : list ascii) : option (nat * string) :=
  match template with
  | [] => Some (vs, "")
  | c :: rest =>
      p <- display_char vs c ;;
      q <- display_from (fst p) rest ;;
      Some (fst q, (snd p ++ snd q)%string)
  end.

Definition display : option string :=
  option_map snd (display_from 0 (list_ascii_of_string puzzle)).

End Display.

(** The number of placeholders in a piece of the template. *)
Definition placeholders (template : list ascii) : nat :=
  List.length (filter is_placeholder template).

(** The character of a digit from 0 to 9. *)
Definition digit_char (z : Z) : ascii := ascii_of_nat (48 + Z.to_nat z).

(** The integer a model gives to cell [k] (0 when it gives none). *)
Definition cell_digit (m : model) (k : nat) : Z :=
  match int_interp m (Py.str_nat k) with Some z => z | None => 0 end.

(** Every cell has a value in the model. *)
Definition total_on_cells (m : model) : Prop :=
  forall k, (k < 81)%nat -> exists v, get_interp m (Int (Py.str_nat k)) = Some v.

(** Every cell has a one-digit value in the model. *)
Definition single_digits (m : model) : Prop :=
  forall k, (k < 81)%nat ->
            exists z, int_interp m (Py.str_nat k) = Some z /\ 0 <= z <= 9.

(** The characters of the template that are not placeholders. *)
Definition is_structural (c : ascii) : bool := Py.char_in c ("|-+" ++ nl).

(** The flat index of position [(r,c)] in block [(R,C)]. *)
Definition cell_index (R C r c : nat) : nat := (9 * (3 * R + r) + 3 * C + c)%nat.

(** [cell(R, C, r, c)]; the index raises when out of range. *)
Definition cell (R C r c : nat) : option const := nth_error cells (cell_index R C r c).

(** The flat indices of the nine cells of block [(R,C)], in the order of
    the comprehension over the offsets [d] in [sq3x3]. *)
Definition block_indices (R C : nat) : list nat :=
  map (fun d => cell_index R C (fst d) (snd d)) sq3x3.

Definition rows : list expr :=
  map (fun r => Distinct (map Const (Py.slice cells r (r + 9)))) (Py.range3 0 81 9).

Definition cols : list expr :=
  map (fun c => Distinct (map Const (Py.slice_step cells c 9))) (Py.range 9).

Definition blocks : option (list expr) :=
  sequence
    (map (fun p =>
            option_map (fun xs => Distinct (map Const xs))
              (sequence (map (fun d => cell (fst p) (snd p) (fst d) (snd d)) sq3x3)))
         sq3x3).

Definition sudoku_rules : option (list expr) :=
  option_map (fun blocks => rows ++ cols ++ blocks) blocks.

Definition start_cells : list ascii :=
  filter is_placeholder (list_ascii_of_string puzzle).

(** The body of the loop over [enumerate(start_cells)]. *)
Definition add_clue (s : option solver) (ic : nat * ascii) : option solver :=
  s <- s ;;
  if is_clue (snd ic) then
    x <- nth_error cells (fst ic) ;;
    d <- Py.int_of_char (snd ic) ;;
    Some (add s [Eq x (Num d)])
  else Some s.

(** The solver after the generic rules and the domain constraint. *)
Definition s_generic : option solver :=
  rules <- sudoku_rules ;;
  let s := add Solver rules in
  Some (add s (in_range 1 10 (map Const cells))).

(** The solver when [s.check()] is called. *)
Definition s : option solver :=
  s <- s_generic ;;
  s <- fold_left add_clue (Py.enumerate start_cells) (Some s) ;;
  x <- nth_error cells 0 ;;
  Some (add s [Ne x (Num 5)]).

(** What was added after the generic rules and the domain constraint. *)
Definition instance_rules : option (list expr) :=
  g <- s_generic ;; s <- s ;; Some (skipn (List.length g) s).

(** *** The grid of a model, by coordinates *)

(** The pre-filled digits of the template: placeholder number and digit. *)
Definition clues : list (nat * Z) :=
  flat_map (fun ic => if is_clue (snd ic)
                      then [(fst ic, Z.of_nat (nat_of_ascii (snd ic) - 48))]
                      else [])
           (Py.enumerate start_cells).

(** One equality per pre-filled digit, fixing the cell to the digit. *)
Definition clue_equalities : list expr :=
  map (fun p => Eq (Int (Py.str_nat (fst p))) (Num (snd p))) clues.

(** The constraint added after the loop over the clues. *)
Definition extra_rule : expr := Ne (Int "0") (Num 5).

Definition one_to_nine : list Z := [1; 2; 3; 4; 5; 6; 7; 8; 9].

(** The flat indices of a grid row, of a grid column, and of the block at
    grid rows [3R..3R+2] and grid columns [3C..3C+2]; the cell at row [row]
    and column [col] has index [9 * row + col]. *)
Definition row_indices (row : nat) : list nat :=
  map (fun col => (9 * row + col)%nat) (seq 0 9).

Definition col_indices (col : nat) : list nat :=
  map (fun row => (9 * row + col)%nat) (seq 0 9).

Definition box_indices (R C : nat) : list nat :=
  flat_map (fun row => map (fun col => (9 * row + col)%nat) (seq (3 * C) 3))
           (seq (3 * R) 3).

Definition at_indices (grid : list Z) (ks : list nat) : list Z :=
  map (fun k => nth k grid 0) ks.

Definition grid_row (grid : list Z) (row : nat) : list Z :=
  at_indices grid (row_indices row).

Definition grid_col (grid : list Z) (col : nat) : list Z :=
  at_indices grid (col_indices col).

Definition grid_block (grid : list Z) (R C : nat) : list Z :=
  at_indices grid (box_indices R C).

(** The constant of cell [k] and the distinctness of the cells [ks]. *)
Definition var (k : nat) : const := Int (Py.str_nat k).

Definition distinct_cells (ks : list nat) : expr :=
  Distinct (map (fun k => Const (var k)) ks).

(** The grid a model gives: cell [i] holds the integer of constant [i]. *)
Definition is_grid_of (m : model) (grid : list Z) : Prop :=
  List.length grid = 81%nat /\
  forall i, (i < 81)%nat -> int_interp m (Py.str_nat i) = Some (nth i grid 0).

Definition solved (grid : list Z) : Prop :=
  (forall row, (row < 9)%nat -> Permutation (grid_row grid row) one_to_nine) /\
  (forall col, (col < 9)%nat -> Permutation (grid_col grid col) one_to_nine) /\
  (forall R C, (R < 3)%nat -> (C < 3)%nat ->
               Permutation (grid_block grid R C) one_to_nine).

(** Placeholder [i] of the template holding the digit [d] means cell [i]
    holds [d]. *)
Definition agrees_with_clues (grid : list Z) : Prop :=
  forall i c d, nth_error start_cells i = Some c -> is_clue c = true ->
                Py.int_of_char c = Some d -> nth i grid 0 = d.

(** The model holding a given grid. *)
Definition model_of (grid : list Z) : model :=
  MkModel (fun _ => None)
    (fun n => option_map snd
       (find (fun p => String.eqb (fst p) n) (combine (map name cells) grid)))
    (fun _ => None).

(** The grid the notebook prints. *)
Definition printed_grid : list Z :=
  [7;1;5; 8;9;4; 6;3;2;
   2;3;4; 5;1;6; 8;9;7;
   6;8;9; 7;2;3; 1;4;5;
   4;9;3; 6;5;7; 2;1;8;
   8;6;7; 2;3;1; 9;5;4;
   1;5;2; 4;8;9; 7;6;3;
   3;7;6; 1;4;8; 5;2;9;
   9;2;8; 3;6;5; 4;7;1;
   5;4;1; 9;7;2; 3;8;6].


(** The loop over [enumerate(start_cells)] for any template and any solver
    it starts from. *)
Definition clue_loop (template : list ascii) (s : solver) : option solver :=
  fold_left add_clue (Py.enumerate (filter is_placeholder template)) (Some s).

(** The pre-filled digits of any template: placeholder number and digit. *)
Definition clues_of (template : list ascii) : list (nat * Z) :=
  flat_map (fun ic => if is_clue (snd ic)
                      then [(fst ic, Z.of_nat (nat_of_ascii (snd ic) - 48))]
                      else [])
           (Py.enumerate (filter is_placeholder template)).

(** The pieces [str(model[cells[k]])] joined for [n] placeholders from
    counter [vs] on. *)
Definition pieces_length (real_str : R -> string) (m : model) (vs n : nat) : nat :=
  fold_right Nat.add 0%nat
    (map (fun k => String.length (str_value real_str (get_interp m (var k))))
         (seq vs n)).


(** *** The template by grid coordinates *)

(** The character of the template at grid row [row] and column [col].  A
    line of the template has 12 characters (nine cells, two bars and the
    newline), a separator line follows every third row and a bar every
    third column. *)
Definition template_char (row col : nat) : ascii :=
  nth (12 * (row + row / 3) + (col + col / 3))
      (list_ascii_of_string puzzle) " "%char.

(** A character from 1 to 9. *)
Definition is_digit (c : ascii) : bool :=
  ((49 <=? nat_of_ascii c) && (nat_of_ascii c <=? 57))%nat.

(** The digit the template gives at a grid position, if it gives one. *)
Definition given (row col : nat) : option Z :=
  if is_digit (template_char row col)
  then Some (Z.of_nat (nat_of_ascii (template_char row col) - 48))
  else None.

(** The grid positions at which the template gives a digit. *)
Definition given_positions : list (nat * nat) :=
  filter (fun p => match given (fst p) (snd p) with Some _ => true | None => false end)
         (flat_map (fun row => map (fun col => (row, col)) (seq 0 9)) (seq 0 9)).

(** Every digit the template gives at a grid position is the value of the
    cell at that position. *)
Definition agrees_with_template (grid : list Z) : Prop :=
  forall row col d, (row < 9)%nat -> (col < 9)%nat ->
                    given row col = Some d -> nth (9 * row + col) grid 0 = d.

(** [cell(R, C, r, c)] for any Python integers. *)
Definition cell_at (R C r c : Z) : option const :=
  Py.index cells (9 * (3 * R + r) + 3 * C + c).

End Sudoku.

(** ** Example: knapsack *)

Module Knapsack.

Definition values : list Z := [360; 83; 59; 130; 431; 67; 230; 52].
Definition weights : list Z := [7; 0; 30; 22; 80; 94; 11; 81].
Definition capacity : Z := 80.

Definition selections : list const :=
  map (fun n => Bool ("item" ++ Py.str_nat n)%string) (Py.range (List.length values)).

(** Modelled from the spec: the product [s * w] of a selection variable and
    a Python integer, an operator of the solver's Python binding (not part
    of the notebook).  It contributes [w] when the variable is true and
    zero when it is false.  The binding builds [If(s, w, 0)], except for
    two literals: for 0 it returns the Python integer 0, so the variable
    drops out of the sum, and for 1 it returns the Boolean itself.  (Adding
    a Boolean makes [sum] raise in the notebook's version of the binding,
    which a term cannot show; no number of the notebook is 1, and what is
    proved about sums of any numbers excludes 1.) *)
Definition times (s : expr) (w : Z) : expr :=
  if w =? 1 then s else if w =? 0 then Num 0 else If s (Num w) (Num 0).

(** Python's [sum]: additions from the left, starting from [0]. *)
Definition sum (terms : list expr) : expr := fold_left Add terms (Num 0).

Definition total_weight : expr :=
  sum (map (fun sw => times (Const (fst sw)) (snd sw)) (combine selections weights)).

Definition total_value : expr :=
  sum (map (fun sv => times (Const (fst sv)) (snd sv)) (combine selections values)).

(** [knapsack.add(... <= capacity)] on a fresh [Optimize]. *)
Definition knapsack : solver := add Solver [Le total_weight (Num capacity)].

(** The argument of [knapsack.maximize]. *)
Definition objective : expr := total_value.

(** *** Selections as lists of booleans *)

(** The sum of the numbers of the selected items. *)
Fixpoint selected_sum (sel : list bool) (ns : list Z) : Z :=
  match sel, ns with
  | b :: sel', n :: ns' => (if b then n else 0) + selected_sum sel' ns'
  | _, _ => 0
  end.

(** The selection a model holds: one boolean per item. *)
Definition is_selection_of (m : model) (sel : list bool) : Prop :=
  List.length sel = List.length selections /\
  forall n, (n < List.length selections)%nat ->
            bool_interp m ("item" ++ Py.str_nat n)%string = Some (nth n sel false).

Definition model_of (sel : list bool) : model :=
  MkModel (fun _ => None) (fun _ => None)
    (fun n => option_map snd
       (find (fun p => String.eqb (fst p) n) (combine (map name selections) sel))).

(** The selection the notebook prints. *)
Definition printed_selection : list bool :=
  [true; true; true; true; false; false; true; false].

(** All selections of [n] items. *)
Fixpoint all_selections (n : nat) : list (list bool) :=
  match n with
  | O => [[]]
  | Datatypes.S n' =>
      flat_map (fun sel => [true :: sel; false :: sel]) (all_selections n')
  end.


(** [sum(s * n for s, n in zip(sels, ns))] for any variables and numbers. *)
Definition weighted (sels : list const) (ns : list Z) : expr :=
  sum (map (fun sn => times (Const (fst sn)) (snd sn)) (combine sels ns)).

(** A model in which every Boolean constant is false: nothing selected. *)
Definition nothing_selected : model :=
  MkModel (fun _ => None) (fun _ => None) (fun _ => Some false).

End Knapsack.
(** ** Facts about evaluation *)

Section EvalFacts.

Variable m : model.

Lemma holds_holdsb (e : expr) : holdsb m e = true <-> holds m e.
Proof.
  unfold holdsb, holds.
  destruct (eval m e) as [[r | z | [|]]|]; split; intro H; try reflexivity;
    try discriminate; inversion H.
Qed.

Lemma is_model_forallb (s : solver) :
  forallb (holdsb m) s = true -> is_model m s.
Proof.
  intro H. apply Forall_forall. intros e He.
  apply holds_holdsb. rewrite forallb_forall in H. now apply H.
Qed.

Lemma is_model_add (s : solver) (es : list expr) :
  is_model m (add s es) <-> is_model m s /\ is_model m es.
Proof. unfold is_model, add. apply Forall_app. Qed.

Lemma Req_bool_true (x y : R) : Req_bool x y = true <-> x = y.
Proof. unfold Req_bool. destruct (Req_dec_T x y); split; congruence. Qed.

Lemma Rle_bool_true (x y : R) : Rle_bool x y = true <-> (x <= y)%R.
Proof. unfold Rle_bool. destruct (Rle_dec x y); split; intro; congruence || tauto. Qed.

Lemma Rlt_bool_true (x y : R) : Rlt_bool x y = true <-> (x < y)%R.
Proof. unfold Rlt_bool. destruct (Rlt_dec x y); split; intro; congruence || tauto. Qed.

End EvalFacts.


(** ** [in_range] *)

Lemma holds_bounds (m : model) (lo hi : Z) (var : expr) :
  holds m (And (Ge var (Num lo)) (Lt var (Num hi))) <->
  exists x, eval m var = Some x /\ within lo hi x.
Proof.
  unfold holds. simpl.
  destruct (eval m var) as [[r | z | b]|]; simpl.
  - split.
    + intro H. exists (VReal r). split; [reflexivity|]. simpl.
      injection H as H. apply andb_true_iff in H. destruct H as [H1 H2].
      apply Rle_bool_true in H1. apply Rlt_bool_true in H2. now split.
    + intros [x [Hx Hw]]. injection Hx as <-. simpl in Hw. destruct Hw as [H1 H2].
      apply Rle_bool_true in H1. apply Rlt_bool_true in H2.
      now rewrite H1, H2.
  - split.
    + intro H. exists (VInt z). split; [reflexivity|]. simpl.
      injection H as H. apply andb_true_iff in H. lia.
    + intros [x [Hx Hw]]. injection Hx as <-. simpl in Hw.
      replace (z >=? lo) with true by lia. replace (z <? hi) with true by lia.
      reflexivity.
  - split; [discriminate|]. intros [x [Hx Hw]]. injection Hx as <-. destruct Hw.
  - split; [discriminate|]. intros [x [Hx _]]. discriminate.
Qed.

Lemma holds_bounds_int (m : model) (lo hi : Z) (n : string) :
  holds m (And (Ge (Int n) (Num lo)) (Lt (Int n) (Num hi))) <->
  exists z, int_interp m n = Some z /\ lo <= z /\ z < hi.
Proof.
  rewrite holds_bounds. simpl. unfold get_interp. simpl.
  destruct (int_interp m n) as [z|]; simpl.
  - split.
    + intros [x [Hx Hw]]. injection Hx as <-. now exists z.
    + intros [z' [Hz Hw]]. injection Hz as <-. now exists (VInt z).
  - split; intros [x [Hx _]]; discriminate.
Qed.

Lemma in_range_nth (lo hi : Z) (vars : list expr) (i : nat) (var : expr) :
  nth_error vars i = Some var ->
  nth_error (in_range lo hi vars) i =
  Some (And (Ge var (Num lo)) (Lt var (Num hi))).
Proof.
  intro H. unfold in_range. rewrite nth_error_map, H. reflexivity.
Qed.

Lemma in_range_int (m : model) (lo hi : Z) (vars : list expr) (n : string) :
  is_model m (in_range lo hi vars) -> In (Const (Int n)) vars ->
  exists z, int_interp m n = Some z /\ lo <= z /\ z < hi.
Proof.
  intros Hm Hin. apply holds_bounds_int.
  unfold is_model in Hm. rewrite Forall_forall in Hm. apply Hm.
  unfold in_range. apply in_map_iff. now exists (Const (Int n)).
Qed.

(** C10: [in_range lo hi vars] has one constraint per variable, in order;
    constraint [i] holds in a model exactly when variable [i] has a number
    [x] there with [lo <= x] and [x < hi], the upper bound excluded.  For an
    integer variable, the constraint of [in_range 0 10] therefore holds
    exactly for the values 0 to 9 and that of [in_range 1 10] exactly for the
    values 1 to 9. *)
Theorem in_range_spec :
  (forall lo hi vars, List.length (in_range lo hi vars) = List.length vars) /\
  (forall lo hi vars i var, nth_error vars i = Some var ->
     exists c, nth_error (in_range lo hi vars) i = Some c /\
       forall m, holds m c <-> exists x, eval m var = Some x /\ within lo hi x) /\
  (forall vars i n, nth_error vars i = Some (Const (Int n)) ->
     exists c, nth_error (in_range 0 10 vars) i = Some c /\
       forall m, holds m c <-> exists z, int_interp m n = Some z /\ 0 <= z <= 9) /\
  (forall vars i n, nth_error vars i = Some (Const (Int n)) ->
     exists c, nth_error (in_range 1 10 vars) i = Some c /\
       forall m, holds m c <-> exists z, int_interp m n = Some z /\ 1 <= z <= 9).
Proof.
  split; [|split; [|split]].
  - intros. unfold in_range. apply length_map.
  - intros lo hi vars i var H.
    exists (And (Ge var (Num lo)) (Lt var (Num hi))). split.
    + now apply in_range_nth.
    + intro m. apply holds_bounds.
  - intros vars i n H.
    exists (And (Ge (Int n) (Num 0)) (Lt (Int n) (Num 10))). split.
    + now apply in_range_nth.
    + intro m. rewrite holds_bounds_int.
      split; intros [z [Hz Hb]]; exists z; (split; [assumption | lia]).
  - intros vars i n H.
    exists (And (Ge (Int n) (Num 1)) (Lt (Int n) (Num 10))). split.
    + now apply in_range_nth.
    + intro m. rewrite holds_bounds_int.
      split; intros [z [Hz Hb]]; exists z; (split; [assumption | lia]).
Qed.

(** The first constraint of [in_range(0, 10, S, E, ...)] holds in the model
    of the digits 9567 + 1085 = 10652, where [S] is 9. *)
Lemma in_range_spec_witness :
  exists c, nth_error (in_range 0 10 Cryptarithm.letters) 0 = Some c /\
            holds (Cryptarithm.model_of [9; 5; 6; 7; 1; 0; 8; 2]) c.
Proof.
  destruct (proj1 (proj2 (proj2 in_range_spec)) Cryptarithm.letters 0%nat "S" eq_refl)
    as (c & Hc & Hiff).
  exists c. split; [exact Hc|]. apply Hiff.
  exists 9. split; [reflexivity | lia].
Defined.

(** ** [amount] *)

Section Amount.

Lemma sum_app (l1 l2 : list Z) :
  fold_right Z.add 0 (l1 ++ l2) = fold_right Z.add 0 l1 + fold_right Z.add 0 l2.
Proof. induction l1 as [|a l1 IH]; simpl; lia. Qed.

Lemma sum_scaled (f g : nat -> Z) (l : list nat) :
  (forall i, In i l -> f i = g i * 10) ->
  fold_right Z.add 0 (map f l) = fold_right Z.add 0 (map g l) * 10.
Proof.
  induction l as [|a l IH]; intro H; simpl; [reflexivity|].
  rewrite IH, (H a); [lia | now left | intros; apply H; now right].
Qed.

Lemma positional_sum_snoc (vs : list Z) (x : Z) :
  Cryptarithm.positional_sum (vs ++ [x]) = Cryptarithm.positional_sum vs * 10 + x.
Proof.
  unfold Cryptarithm.positional_sum. rewrite length_app. simpl List.length.
  rewrite Nat.add_1_r, seq_S, map_app, sum_app. simpl.
  rewrite (sum_scaled _ (fun i => nth i vs 0 * 10 ^ Z.of_nat (List.length vs - 1 - i))).
  - rewrite nth_middle, Nat.sub_0_r, Nat.sub_diag. simpl. lia.
  - intros i Hi. apply in_seq in Hi. cbv beta.
    rewrite app_nth1 by lia.
    replace (Z.of_nat (List.length vs - 0 - i))
      with (Z.succ (Z.of_nat (List.length vs - 1 - i))) by lia.
    rewrite Z.pow_succ_r by lia. lia.
Qed.

Lemma sequence_snoc {A} (l : list (option A)) (o : option A) :
  sequence (l ++ [o]) =
  (vs <- sequence l ;; x <- o ;; Some (vs ++ [x])).
Proof.
  induction l as [|a l IH]; simpl.
  - now destruct o.
  - destruct a as [a|]; simpl; [|reflexivity].
    rewrite IH. destruct (sequence l); simpl; [|reflexivity].
    now destruct o.
Qed.

Lemma amount_snoc (m : model) (digits : list const) (d : const) :
  Cryptarithm.amount m (digits ++ [d]) =
  (v <- Cryptarithm.amount m digits ;; x <- as_long (get_interp m d) ;; Some (v * 10 + x)).
Proof. unfold Cryptarithm.amount. rewrite fold_left_app. reflexivity. Qed.

Lemma as_long_integer (m : model) (d : const) (v : Z) :
  Cryptarithm.has_integer m d v -> as_long (get_interp m d) = Some v.
Proof.
  intros [-> | ->]; simpl; [reflexivity|].
  assert (v = Int_part (IZR v)) as E by (apply Int_part_spec; lra).
  rewrite <- E. destruct (Req_dec_T (IZR v) (IZR v)); [reflexivity | contradiction].
Qed.

Lemma digit_values_integers (m : model) (digits : list const) (vs : list Z) :
  Forall2 (Cryptarithm.has_integer m) digits vs ->
  Cryptarithm.digit_values m digits = Some vs.
Proof.
  unfold Cryptarithm.digit_values.
  induction 1 as [|d v digits vs Hd _ IH]; simpl; [reflexivity|].
  now rewrite (as_long_integer m d v Hd), IH.
Qed.

Lemma amount_sum (m : model) (digits : list const) :
  Cryptarithm.amount m digits =
  option_map Cryptarithm.positional_sum (Cryptarithm.digit_values m digits).
Proof.
  induction digits as [|d digits IH] using rev_ind.
  - reflexivity.
  - rewrite amount_snoc, IH. unfold Cryptarithm.digit_values.
    rewrite map_app. simpl map. rewrite sequence_snoc.
    destruct (sequence (map (fun digit => as_long (get_interp m digit)) digits)) as [vs|];
      simpl; [|reflexivity].
    destruct (as_long (get_interp m d)) as [x|]; simpl; [|reflexivity].
    now rewrite positional_sum_snoc.
Qed.

(** C8: for every model and every sequence of digits to each of which the
    model gives an integer, the loop of [amount] returns the positional
    weighted sum of those integers, integer [i] of [k] weighing
    [10^(k-1-i)]; for no digits at all it returns 0.  In general it fails
    exactly when reading some digit's integer fails. *)
Theorem amount_positional_sum :
  (forall m, Cryptarithm.amount m [] = Some 0) /\
  (forall m digits vs,
     Forall2 (Cryptarithm.has_integer m) digits vs ->
     Cryptarithm.amount m digits = Some (Cryptarithm.positional_sum vs)) /\
  (forall m digits,
     Cryptarithm.amount m digits =
     option_map Cryptarithm.positional_sum (Cryptarithm.digit_values m digits)).
Proof.
  split; [reflexivity|]. split.
  - intros m digits vs H.
    now rewrite amount_sum, (digit_values_integers m digits vs H).
  - apply amount_sum.
Qed.

(** In the model of 9567 + 1085 = 10652 the digits M, O, N, E, Y are
    1, 0, 6, 5, 2 and their amount is 1*10^4 + 0*10^3 + 6*10^2 + 5*10 + 2. *)
Lemma amount_positional_sum_witness :
  Forall2 (Cryptarithm.has_integer (Cryptarithm.model_of [9; 5; 6; 7; 1; 0; 8; 2]))
          [Cryptarithm.M; Cryptarithm.O; Cryptarithm.N; Cryptarithm.E; Cryptarithm.Y]
          [1; 0; 6; 5; 2] /\
  Cryptarithm.amount (Cryptarithm.model_of [9; 5; 6; 7; 1; 0; 8; 2])
    [Cryptarithm.M; Cryptarithm.O; Cryptarithm.N; Cryptarithm.E; Cryptarithm.Y]
  = Some 10652.
Proof.
  assert (Forall2 (Cryptarithm.has_integer (Cryptarithm.model_of [9; 5; 6; 7; 1; 0; 8; 2]))
                  [Cryptarithm.M; Cryptarithm.O; Cryptarithm.N; Cryptarithm.E; Cryptarithm.Y]
                  [1; 0; 6; 5; 2]) as H
    by (repeat constructor; left; reflexivity).
  split; [exact H|].
  exact (proj1 (proj2 amount_positional_sum) _ _ _ H).
Defined.

End Amount.

(** ** Lists without repetition, by computation *)

Section NoDupCheck.

Context {A : Type} (eqb : A -> A -> bool).
Hypothesis eqb_eq : forall x y, eqb x y = true <-> x = y.

Lemma nodupb_NoDup (l : list A) : Py.nodupb eqb l = true -> NoDup l.
Proof.
  induction l as [|x l IH]; simpl; intro H.
  - constructor.
  - apply andb_true_iff in H. destruct H as [Hx Hl].
    constructor; [|now apply IH].
    intro Hin. apply negb_true_iff in Hx.
    assert (existsb (eqb x) l = true) as E.
    { apply existsb_exists. exists x. split; [assumption | now apply eqb_eq]. }
    congruence.
Qed.

End NoDupCheck.

(** ** The coordinate transform of the Sudoku blocks *)

Lemma nth_error_cells (k : nat) :
  (k < 81)%nat -> nth_error Sudoku.cells k = Some (Sudoku.var k).
Proof.
  intro H. unfold Sudoku.cells, Py.range.
  rewrite nth_error_map, nth_error_seq.
  replace (k <? 81)%nat with true by (symmetry; apply Nat.ltb_lt; lia).
  reflexivity.
Qed.

Lemma in_sq3x3 (r c : nat) : In (r, c) Sudoku.sq3x3 <-> (r < 3 /\ c < 3)%nat.
Proof.
  unfold Sudoku.sq3x3, Py.product2, Py.range. rewrite in_flat_map. split.
  - intros [i [Hi Hin]]. apply in_map_iff in Hin. destruct Hin as [j [E Hj]].
    injection E as <- <-. apply in_seq in Hi. apply in_seq in Hj. lia.
  - intros [Hr Hc]. exists r. split; [apply in_seq; lia|].
    apply in_map_iff. exists c. split; [reflexivity | apply in_seq; lia].
Qed.

Lemma in_block_indices (R C k : nat) :
  In k (Sudoku.block_indices R C) <->
  exists r c, (r < 3 /\ c < 3)%nat /\ k = Sudoku.cell_index R C r c.
Proof.
  unfold Sudoku.block_indices. rewrite in_map_iff. split.
  - intros [[r c] [E Hin]]. exists r, c. split; [now apply in_sq3x3 | now symmetry].
  - intros [r [c [H E]]]. exists (r, c). split; [now symmetry | now apply in_sq3x3].
Qed.

(** C7: [cell_index R C r c = 9*(3R+r) + 3C + c] is injective on indices
    and offsets below 3 and takes exactly the values 0..80; the nine
    indices of block [(R,C)] are exactly the cells at grid rows
    [3R..3R+2] and columns [3C..3C+2]; the nine block constraints are the
    distinctness of those cells, and together they mention each of the 81
    cells exactly once.  [cell] returns the variable at that index. *)
Theorem cell_index_covers_grid :
  (forall R C r c, (R < 3 /\ C < 3 /\ r < 3 /\ c < 3)%nat ->
     Sudoku.cell R C r c = Some (Sudoku.var (9 * (3 * R + r) + 3 * C + c))) /\
  (forall R C r c R' C' r' c',
     (R < 3 /\ C < 3 /\ r < 3 /\ c < 3)%nat ->
     (R' < 3 /\ C' < 3 /\ r' < 3 /\ c' < 3)%nat ->
     Sudoku.cell_index R C r c = Sudoku.cell_index R' C' r' c' ->
     R = R' /\ C = C' /\ r = r' /\ c = c') /\
  (forall R C r c, (R < 3 /\ C < 3 /\ r < 3 /\ c < 3)%nat ->
     (Sudoku.cell_index R C r c < 81)%nat) /\
  (forall k, (k < 81)%nat ->
     exists R C r c, (R < 3 /\ C < 3 /\ r < 3 /\ c < 3)%nat /\
                     Sudoku.cell_index R C r c = k) /\
  (forall R C k, (R < 3 /\ C < 3)%nat ->
     (In k (Sudoku.block_indices R C) <->
      exists row col, (3 * R <= row <= 3 * R + 2 /\ 3 * C <= col <= 3 * C + 2)%nat /\
                      k = (9 * row + col)%nat)) /\
  Sudoku.blocks =
    Some (map (fun p => Distinct (map (fun k => Const (Int (Py.str_nat k)))
                                      (Sudoku.block_indices (fst p) (snd p))))
              Sudoku.sq3x3) /\
  Permutation (flat_map (fun p => Sudoku.block_indices (fst p) (snd p)) Sudoku.sq3x3)
              (seq 0 81).
Proof.
  split; [|split; [|split; [|split; [|split; [|split]]]]].
  - intros R C r c H. unfold Sudoku.cell, Sudoku.cell_index.
    apply nth_error_cells. lia.
  - unfold Sudoku.cell_index. intros. lia.
  - unfold Sudoku.cell_index. intros. lia.
  - intros k Hk.
    exists (k / 27)%nat, (k mod 9 / 3)%nat, (k / 9 mod 3)%nat, (k mod 3)%nat.
    unfold Sudoku.cell_index.
    pose proof (Nat.div_mod_eq k 27). pose proof (Nat.div_mod_eq k 9).
    pose proof (Nat.div_mod_eq k 3). pose proof (Nat.div_mod_eq (k mod 9) 3).
    pose proof (Nat.div_mod_eq (k / 9) 3).
    pose proof (Nat.mod_upper_bound k 27). pose proof (Nat.mod_upper_bound k 9).
    pose proof (Nat.mod_upper_bound k 3). pose proof (Nat.mod_upper_bound (k mod 9) 3).
    pose proof (Nat.mod_upper_bound (k / 9) 3).
    pose proof (Nat.Div0.div_div k 9 3) as E. simpl in E.
    pose proof (Nat.Div0.mod_mul_r k 3 3) as E'. simpl in E'.
    lia.
  - intros R C k [HR HC]. rewrite in_block_indices. unfold Sudoku.cell_index. split.
    + intros [r [c [H E]]]. exists (3 * R + r)%nat, (3 * C + c)%nat. lia.
    + intros [row [col [H E]]]. exists (row - 3 * R)%nat, (col - 3 * C)%nat. lia.
  - reflexivity.
  - apply NoDup_Permutation_bis.
    + apply (nodupb_NoDup Nat.eqb Nat.eqb_eq). reflexivity.
    + reflexivity.
    + intros k Hk. apply in_seq.
      apply in_flat_map in Hk. destruct Hk as [[R C] [Hp Hk]]. cbn [fst snd] in Hk.
      apply in_sq3x3 in Hp. apply in_block_indices in Hk.
      destruct Hk as [r [c [H E]]]. unfold Sudoku.cell_index in E. lia.
Qed.

(** Offset (0,1) of block (1,2) is cell 34, at grid row 3 and column 7. *)
Lemma cell_index_covers_grid_witness :
  (Sudoku.cell_index 1 2 0 1 < 81)%nat /\ In 34%nat (Sudoku.block_indices 1 2).
Proof.
  split.
  - apply (proj1 (proj2 (proj2 cell_index_covers_grid))). lia.
  - apply (proj1 (proj2 (proj2 (proj2 (proj2 cell_index_covers_grid)))) 1%nat 2%nat 34%nat);
      [lia|].
    exists 3%nat, 7%nat. lia.
Defined.

(** ** Variable naming *)

Lemma const_eqb_eq (x y : const) : const_eqb x y = true <-> x = y.
Proof.
  unfold const_eqb. destruct x as [n s], y as [n' s']. simpl. split.
  - intro H. apply andb_true_iff in H. destruct H as [Hn Hs].
    apply String.eqb_eq in Hn. subst n'.
    destruct s, s'; simpl in Hs; congruence.
  - intro H. injection H as <- <-. rewrite String.eqb_refl. now destruct s.
Qed.

Lemma uses_onlyb_uses_only (decls : list const) (terms : list expr) :
  uses_onlyb decls terms = true -> uses_only decls terms.
Proof.
  unfold uses_onlyb, uses_only. intro H. apply Forall_forall. intros c Hc.
  rewrite forallb_forall in H. specialize (H c Hc).
  apply existsb_exists in H. destruct H as [d [Hd E]].
  apply const_eqb_eq in E. now subst d.
Qed.

Lemma same_sort_consistent (srt : sort) (decls : list const) :
  Forall (fun x => sort_of x = srt) decls -> consistent_naming decls.
Proof.
  intros H x y Hx Hy _. rewrite Forall_forall in H.
  now rewrite (H x Hx), (H y Hy).
Qed.

Lemma names_NoDup (l : list string) : Py.nodupb String.eqb l = true -> NoDup l.
Proof. apply nodupb_NoDup. apply String.eqb_eq. Qed.

(** C9: in each of the four problems the declared variables have pairwise
    different names and one sort (five reals [u v s a t]; eight integers
    [S E N D M O R Y]; 81 integers named [0] to [80]; eight booleans
    [item0] to [item7]), so no two of them share a name with different
    sorts, and the constraints passed to the solver mention declared
    variables only. *)
Theorem naming_is_consistent :
  (Kinematics.variables = map Real ["u"; "v"; "s"; "a"; "t"] /\
   NoDup (map name Kinematics.variables) /\
   consistent_naming Kinematics.variables /\
   uses_only Kinematics.variables Kinematics.solve_call) /\
  (Cryptarithm.variables = map Int ["S"; "E"; "N"; "D"; "M"; "O"; "R"; "Y"] /\
   NoDup (map name Cryptarithm.variables) /\
   consistent_naming Cryptarithm.variables /\
   uses_only Cryptarithm.variables Cryptarithm.s) /\
  (Sudoku.cells = map (fun k => Int (Py.str_nat k)) (seq 0 81) /\
   Py.str_nat 0 = "0" /\ Py.str_nat 80 = "80" /\
   NoDup (map name Sudoku.cells) /\
   consistent_naming Sudoku.cells /\
   exists s, Sudoku.s = Some s /\ uses_only Sudoku.cells s) /\
  (Knapsack.selections =
     map Bool ["item0"; "item1"; "item2"; "item3"; "item4"; "item5"; "item6"; "item7"] /\
   NoDup (map name Knapsack.selections) /\
   consistent_naming Knapsack.selections /\
   uses_only Knapsack.selections (Knapsack.objective :: Knapsack.knapsack)).
Proof.
  split; [|split; [|split]].
  - split; [reflexivity|]. split; [now apply names_NoDup|]. split.
    + apply (same_sort_consistent RealSort). repeat constructor.
    + now apply uses_onlyb_uses_only.
  - split; [reflexivity|]. split; [now apply names_NoDup|]. split.
    + apply (same_sort_consistent IntSort). repeat constructor.
    + now apply uses_onlyb_uses_only.
  - split; [reflexivity|]. split; [reflexivity|]. split; [reflexivity|].
    split; [now apply names_NoDup|]. split.
    + apply (same_sort_consistent IntSort). unfold Sudoku.cells.
      apply Forall_map. apply Forall_forall. reflexivity.
    + destruct Sudoku.s as [s|] eqn:E; [|discriminate E].
      exists s. split; [reflexivity|].
      apply uses_onlyb_uses_only.
      assert (option_map (uses_onlyb Sudoku.cells) Sudoku.s = Some true) as H
        by (vm_compute; reflexivity).
      rewrite E in H. now injection H.
  - split; [reflexivity|]. split; [now apply names_NoDup|]. split.
    + apply (same_sort_consistent BoolSort). repeat constructor.
    + now apply uses_onlyb_uses_only.
Qed.

(** ** Uniform acceleration *)

Lemma holds_real_eq_num (m : model) (n : string) (k : Z) :
  holds m (Eq (Real n) (Num k)) <-> real_interp m n = Some (IZR k).
Proof.
  unfold holds. simpl. unfold get_interp. simpl.
  destruct (real_interp m n) as [x|]; simpl.
  - split; intro H.
    + injection H as H. apply Req_bool_true in H. now subst x.
    + injection H as ->. do 2 f_equal. now apply Req_bool_true.
  - split; discriminate.
Qed.

Lemma kinematics_rules (m : model) (vu va vv vt vs : R) :
  Kinematics.assigns m vu va vv vt vs ->
  (is_model m Kinematics.rules <->
   vv = (vu + va * vt)%R /\ vs = (vu * vt + va * vt * vt / 2)%R).
Proof.
  intros (Hu & Ha & Hv & Ht & Hs).
  unfold is_model, Kinematics.rules.
  rewrite Forall_cons_iff, Forall_cons_iff.
  unfold holds. simpl. unfold get_interp. simpl.
  rewrite Hu, Ha, Hv, Ht, Hs. simpl. split.
  - intros (H1 & H2 & _). injection H1 as H1. injection H2 as H2.
    apply Req_bool_true in H1. apply Req_bool_true in H2. now split.
  - intros [H1 H2]. apply Req_bool_true in H1. apply Req_bool_true in H2.
    rewrite H1, H2. repeat split. constructor.
Qed.

Lemma kinematics_defined (m : model) :
  is_model m Kinematics.rules ->
  exists vu va vv vt vs, Kinematics.assigns m vu va vv vt vs.
Proof.
  unfold is_model, Kinematics.rules, Kinematics.assigns.
  rewrite Forall_cons_iff, Forall_cons_iff.
  unfold holds. simpl. unfold get_interp. simpl.
  intros (H1 & H2 & _).
  destruct (real_interp m "v") as [vv|]; [|discriminate H1].
  destruct (real_interp m "u") as [vu|]; [|discriminate H1].
  destruct (real_interp m "a") as [va|]; [|discriminate H1].
  destruct (real_interp m "t") as [vt|]; [|discriminate H1].
  destruct (real_interp m "s") as [vs|]; [|discriminate H2].
  now exists vu, va, vv, vt, vs.
Qed.

(** C4: with [u = 10], [a = 1] and [v = 20], the values [t = 10] and
    [s = 150] satisfy both rules, [v = u + a*t] and [s = u*t + a*t*t/2], over
    the reals; and a model satisfies the bindings and the rules exactly
    when it gives the five variables these values, so no other [t] and [s]
    are consistent with them. *)
Theorem kinematics_solution :
  (forall m, Kinematics.assigns m 10 1 20 10 150 -> is_model m Kinematics.rules) /\
  (forall m, is_model m Kinematics.solve_call <-> Kinematics.assigns m 10 1 20 10 150).
Proof.
  split.
  - intros m H. apply (kinematics_rules m _ _ _ _ _ H). split; lra.
  - intro m. unfold Kinematics.solve_call, Solver, add. rewrite app_nil_l.
    change (is_model m (Kinematics.bindings ++ Kinematics.rules))
      with (Forall (holds m) (Kinematics.bindings ++ Kinematics.rules)).
    rewrite Forall_app. unfold Kinematics.bindings.
    fold (is_model m Kinematics.rules).
    generalize (is_model m Kinematics.rules) (kinematics_defined m)
               (fun vu va vv vt vs => kinematics_rules m vu va vv vt vs).
    intros rules_hold Hdef Hrules.
    rewrite !Forall_cons_iff.
    change (holds m (Eq Kinematics.u (Num 10))) with (holds m (Eq (Real "u") (Num 10))).
    change (holds m (Eq Kinematics.a (Num 1))) with (holds m (Eq (Real "a") (Num 1))).
    change (holds m (Eq Kinematics.v (Num 20))) with (holds m (Eq (Real "v") (Num 20))).
    rewrite !holds_real_eq_num. split.
    + intros [(Hu & Ha & Hv & _) Hr].
      destruct (Hdef Hr) as (vu & va & vv & vt & vs & Has).
      pose proof (proj1 (Hrules _ _ _ _ _ Has) Hr) as [E1 E2].
      destruct Has as (Hu' & Ha' & Hv' & Ht & Hs).
      rewrite Hu in Hu'. rewrite Ha in Ha'. rewrite Hv in Hv'.
      injection Hu' as <-. injection Ha' as <-. injection Hv' as <-.
      assert (vt = 10%R) as -> by lra.
      assert (vs = 150%R) as -> by lra.
      unfold Kinematics.assigns. now repeat split.
    + intro Has. pose proof Has as (Hu & Ha & Hv & Ht & Hs).
      split; [repeat split; assumption || constructor|].
      apply (Hrules _ _ _ _ _ Has). split; lra.
Qed.

(** The printed model [[s = 150, t = 10, v = 20, a = 1, u = 10]] is one. *)
Lemma kinematics_solution_witness :
  is_model (Kinematics.model_of 10 1 20 10 150) Kinematics.solve_call.
Proof.
  apply (proj2 kinematics_solution).
  unfold Kinematics.assigns. repeat split; reflexivity.
Defined.

(** ** SEND + MORE = MONEY *)

Lemma in_digits10 (z : Z) : 0 <= z <= 9 -> In z Cryptarithm.digits10.
Proof.
  intro H. unfold Cryptarithm.digits10. apply in_map_iff.
  exists (Z.to_nat z). split; [lia | apply in_seq; lia].
Qed.

Lemma nodupb_Z (l : list Z) : NoDup l -> Py.nodupb Z.eqb l = true.
Proof.
  induction 1 as [|x l Hx Hl IH]; simpl; [reflexivity|].
  rewrite IH, andb_true_r. apply negb_true_iff.
  destruct (existsb (Z.eqb x) l) eqn:E; [|reflexivity].
  apply existsb_exists in E. destruct E as [y [Hy E]].
  apply Z.eqb_eq in E. now subst y.
Qed.

Lemma solutions_found : Cryptarithm.solutions = [[9; 5; 6; 7; 1; 0; 8; 2]].
Proof. vm_compute. reflexivity. Qed.

Lemma send_more_money_unique (s e n d m o r y : Z) :
  Forall (fun z => 0 <= z <= 9) [s; e; n; d; m; o; r; y] ->
  1 <= s -> 1 <= m ->
  NoDup [s; e; n; d; m; o; r; y] ->
  Cryptarithm.adds_up s e n d m o r y ->
  [s; e; n; d; m; o; r; y] = [9; 5; 6; 7; 1; 0; 8; 2].
Proof.
  intros Hb Hs Hm Hd Heq. unfold Cryptarithm.adds_up in Heq.
  repeat match goal with
         | H : Forall _ (_ :: _) |- _ => apply Forall_cons_iff in H; destruct H as [? H]
         end.
  assert (m = 1) by lia. subst m.
  assert (s = 9) by lia. subst s.
  assert (y = 91 * e + d + 10 * r - 900 * o - 90 * n) as Hy by lia.
  assert (In [9; e; n; d; 1; o; r; y] Cryptarithm.solutions) as Hin.
  { apply (proj2 (filter_In Cryptarithm.acceptable _ Cryptarithm.candidates)). split.
    - unfold Cryptarithm.candidates.
      apply in_flat_map. exists e. split; [now apply in_digits10|].
      apply in_flat_map. exists n. split; [now apply in_digits10|].
      apply in_flat_map. exists d. split; [now apply in_digits10|].
      apply in_flat_map. exists o. split; [now apply in_digits10|].
      apply in_map_iff. exists r. split; [now rewrite Hy | now apply in_digits10].
    - unfold Cryptarithm.acceptable. rewrite (nodupb_Z _ Hd). simpl. lia. }
  rewrite solutions_found in Hin. destruct Hin as [E | []]. now symmetry.
Qed.

Lemma sequence_ints (m : model) (es : list expr) (zs : list Z) :
  Forall2 (fun e z => eval m e = Some (VInt z)) es zs ->
  sequence (map (eval m) es) = Some (map VInt zs).
Proof.
  induction 1 as [|e z es zs He _ IH]; simpl; [reflexivity|].
  now rewrite He, IH.
Qed.

Lemma differs_from_all_ints (z : Z) (zs : list Z) :
  differs_from_all (VInt z) (map VInt zs) = Some (negb (existsb (Z.eqb z) zs)).
Proof.
  induction zs as [|w zs IH]; simpl; [reflexivity|].
  rewrite IH. simpl. now rewrite negb_orb.
Qed.

Lemma pairwise_distinct_ints (zs : list Z) :
  pairwise_distinct (map VInt zs) = Some (Py.nodupb Z.eqb zs).
Proof.
  induction zs as [|z zs IH]; simpl; [reflexivity|].
  now rewrite differs_from_all_ints, IH.
Qed.

Lemma holds_Distinct_ints (m : model) (es : list expr) (zs : list Z) :
  Forall2 (fun e z => eval m e = Some (VInt z)) es zs ->
  holds m (Distinct es) -> NoDup zs.
Proof.
  intros H. unfold holds. simpl.
  rewrite (sequence_ints m es zs H). simpl.
  rewrite pairwise_distinct_ints. simpl. intro E. injection E as E.
  now apply (nodupb_NoDup Z.eqb Z.eqb_eq).
Qed.

Lemma some_inj {A} (x y : A) : Some x = Some y -> x = y.
Proof. congruence. Qed.

Lemma some_vbool_true (b : bool) : Some (VBool b) = Some (VBool true) -> b = true.
Proof. congruence. Qed.

Lemma eval_int (m : model) (n : string) (z : Z) :
  int_interp m n = Some z -> eval m (Const (Int n)) = Some (VInt z).
Proof. intro H. simpl. unfold get_interp. simpl. now rewrite H. Qed.

(** C2: in every model of the cryptarithm's constraints the eight letters
    have integer values that are pairwise different and lie in 0..9, with
    [S] and [M] in 1..9, and that satisfy SEND + MORE = MONEY; and [amount]
    of M, O, N, E, Y in that model is 10652. *)
Theorem cryptarithm_model (model : model) :
  is_model model Cryptarithm.s ->
  exists s e n d m o r y,
    Cryptarithm.digit_values model Cryptarithm.variables = Some [s; e; n; d; m; o; r; y] /\
    NoDup [s; e; n; d; m; o; r; y] /\
    Forall (fun z => 0 <= z <= 9) [s; e; n; d; m; o; r; y] /\
    1 <= s <= 9 /\ 1 <= m <= 9 /\
    Cryptarithm.adds_up s e n d m o r y /\
    Cryptarithm.amount model
      [Cryptarithm.M; Cryptarithm.O; Cryptarithm.N; Cryptarithm.E; Cryptarithm.Y]
    = Some 10652.
Proof.
  unfold Cryptarithm.s. rewrite !is_model_add.
  intros [[[[_ Heq] Hdis] Hdig] Hlead].
  assert (forall n, In (Const (Int n)) Cryptarithm.letters ->
                    exists z, int_interp model n = Some z /\ 0 <= z /\ z < 10) as Hd
      by (intros n Hn; now apply (in_range_int model 0 10 Cryptarithm.letters)).
  destruct (Hd "S") as (s & Hs & Bs); [simpl; tauto|].
  destruct (Hd "E") as (e & He & Be); [simpl; tauto|].
  destruct (Hd "N") as (n & Hn & Bn); [simpl; tauto|].
  destruct (Hd "D") as (d & Hd' & Bd); [simpl; tauto|].
  destruct (Hd "M") as (m & Hm & Bm); [simpl; tauto|].
  destruct (Hd "O") as (o & Ho & Bo); [simpl; tauto|].
  destruct (Hd "R") as (r & Hr & Br); [simpl; tauto|].
  destruct (Hd "Y") as (y & Hy & By); [simpl; tauto|].
  destruct (in_range_int model 1 10 _ "S" Hlead) as (s' & Hs' & Bs'); [simpl; tauto|].
  destruct (in_range_int model 1 10 _ "M" Hlead) as (m' & Hm' & Bm'); [simpl; tauto|].
  rewrite Hs in Hs'. injection Hs' as <-. rewrite Hm in Hm'. injection Hm' as <-.
  assert (NoDup [s; e; n; d; m; o; r; y]) as Hnd.
  { apply (holds_Distinct_ints model Cryptarithm.letters).
    - unfold Cryptarithm.letters. repeat constructor; now apply eval_int.
    - apply Forall_inv in Hdis. exact Hdis. }
  assert (Cryptarithm.adds_up s e n d m o r y) as Hsum.
  { apply Forall_inv in Heq. unfold holds in Heq.
    cbv -[Z.mul Z.add Z.eqb int_interp] in Heq.
    rewrite Hs, He, Hn, Hd', Hm, Ho, Hr, Hy in Heq.
    cbv -[Z.mul Z.add Z.eqb] in Heq.
    apply some_vbool_true, Z.eqb_eq in Heq.
    unfold Cryptarithm.adds_up. lia. }
  assert ([s; e; n; d; m; o; r; y] = [9; 5; 6; 7; 1; 0; 8; 2]) as Huniq.
  { apply send_more_money_unique; try assumption; try lia.
    repeat constructor; lia. }
  exists s, e, n, d, m, o, r, y.
  split; [|split; [assumption|split; [repeat constructor; lia|]]].
  - unfold Cryptarithm.digit_values. simpl. unfold get_interp. simpl.
    now rewrite Hs, He, Hn, Hd', Hm, Ho, Hr, Hy.
  - split; [lia|]. split; [lia|]. split; [assumption|].
    injection Huniq as -> -> -> -> -> -> -> ->.
    unfold Cryptarithm.amount. simpl. unfold get_interp. simpl.
    now rewrite Hm, Ho, Hn, He, Hy.
Qed.

(** The digits 9567 + 1085 = 10652 give a model. *)
Lemma cryptarithm_model_witness :
  is_model (Cryptarithm.model_of [9; 5; 6; 7; 1; 0; 8; 2]) Cryptarithm.s /\
  Cryptarithm.amount (Cryptarithm.model_of [9; 5; 6; 7; 1; 0; 8; 2])
    [Cryptarithm.M; Cryptarithm.O; Cryptarithm.N; Cryptarithm.E; Cryptarithm.Y]
  = Some 10652.
Proof.
  assert (is_model (Cryptarithm.model_of [9; 5; 6; 7; 1; 0; 8; 2]) Cryptarithm.s) as H
    by (apply is_model_forallb; vm_compute; reflexivity).
  split; [exact H|].
  destruct (cryptarithm_model _ H) as (s & e & n & d & m & o & r & y & _ & _ & _ & _ & _ & _ & A).
  exact A.
Defined.

(** ** Knapsack *)

Lemma all_selections_complete (n : nat) (sel : list bool) :
  List.length sel = n -> In sel (Knapsack.all_selections n).
Proof.
  revert sel. induction n as [|n IH]; intros sel H.
  - destruct sel; [now left | discriminate].
  - destruct sel as [|b sel]; [discriminate|]. injection H as H.
    simpl. apply in_flat_map. exists sel. split; [now apply IH|].
    destruct b; simpl; tauto.
Qed.

Lemma knapsack_bound (sel : list bool) :
  List.length sel = 8%nat ->
  Knapsack.selected_sum sel Knapsack.weights <= Knapsack.capacity ->
  Knapsack.selected_sum sel Knapsack.values <= 862.
Proof.
  intros Hlen Hw.
  assert (forallb (fun sel =>
                     implb (Knapsack.selected_sum sel Knapsack.weights <=? Knapsack.capacity)
                           (Knapsack.selected_sum sel Knapsack.values <=? 862))
                  (Knapsack.all_selections 8) = true) as H by (vm_compute; reflexivity).
  rewrite forallb_forall in H.
  specialize (H sel (all_selections_complete 8 sel Hlen)).
  apply Z.leb_le in Hw. rewrite Hw in H. simpl in H. now apply Z.leb_le.
Qed.

Lemma selection_items (m : model) (sel : list bool) :
  Knapsack.is_selection_of m sel ->
  exists b0 b1 b2 b3 b4 b5 b6 b7,
    sel = [b0; b1; b2; b3; b4; b5; b6; b7] /\
    bool_interp m "item0" = Some b0 /\ bool_interp m "item1" = Some b1 /\
    bool_interp m "item2" = Some b2 /\ bool_interp m "item3" = Some b3 /\
    bool_interp m "item4" = Some b4 /\ bool_interp m "item5" = Some b5 /\
    bool_interp m "item6" = Some b6 /\ bool_interp m "item7" = Some b7.
Proof.
  intros [Hlen H].
  destruct sel as [|b0 [|b1 [|b2 [|b3 [|b4 [|b5 [|b6 [|b7 [|? ?]]]]]]]]];
    try discriminate Hlen.
  exists b0, b1, b2, b3, b4, b5, b6, b7. split; [reflexivity|].
  change (List.length Knapsack.selections) with 8%nat in H.
  repeat split.
  - apply (H 0%nat). lia.
  - apply (H 1%nat). lia.
  - apply (H 2%nat). lia.
  - apply (H 3%nat). lia.
  - apply (H 4%nat). lia.
  - apply (H 5%nat). lia.
  - apply (H 6%nat). lia.
  - apply (H 7%nat). lia.
Qed.

Lemma eval_knapsack (m : model) (sel : list bool) :
  Knapsack.is_selection_of m sel ->
  eval m Knapsack.total_weight =
    Some (VInt (Knapsack.selected_sum sel Knapsack.weights)) /\
  eval m Knapsack.total_value =
    Some (VInt (Knapsack.selected_sum sel Knapsack.values)).
Proof.
  intro H. apply selection_items in H.
  destruct H as (b0 & b1 & b2 & b3 & b4 & b5 & b6 & b7 & -> &
                 H0 & H1 & H2 & H3 & H4 & H5 & H6 & H7).
  split.
  - cbv -[Z.add bool_interp]. rewrite ?H0, ?H1, ?H2, ?H3, ?H4, ?H5, ?H6, ?H7.
    cbv -[Z.add]. do 2 f_equal.
    destruct b0, b1, b2, b3, b4, b5, b6, b7; reflexivity.
  - cbv -[Z.add bool_interp]. rewrite ?H0, ?H1, ?H2, ?H3, ?H4, ?H5, ?H6, ?H7.
    cbv -[Z.add]. do 2 f_equal.
    destruct b0, b1, b2, b3, b4, b5, b6, b7; reflexivity.
Qed.

Ltac stuck_sum H :=
  repeat match goal with b : bool |- _ => destruct b end;
  cbv in H; discriminate H.

Lemma objective_selection (m : model) (v : value) :
  eval m Knapsack.objective = Some v -> exists sel, Knapsack.is_selection_of m sel.
Proof.
  intro H. cbv -[Z.add bool_interp] in H.
  destruct (bool_interp m "item0") as [b0|] eqn:H0; [|stuck_sum H].
  destruct (bool_interp m "item1") as [b1|] eqn:H1; [|stuck_sum H].
  destruct (bool_interp m "item2") as [b2|] eqn:H2; [|stuck_sum H].
  destruct (bool_interp m "item3") as [b3|] eqn:H3; [|stuck_sum H].
  destruct (bool_interp m "item4") as [b4|] eqn:H4; [|stuck_sum H].
  destruct (bool_interp m "item5") as [b5|] eqn:H5; [|stuck_sum H].
  destruct (bool_interp m "item6") as [b6|] eqn:H6; [|stuck_sum H].
  destruct (bool_interp m "item7") as [b7|] eqn:H7; [|stuck_sum H].
  exists [b0; b1; b2; b3; b4; b5; b6; b7]. split; [reflexivity|].
  intros n Hn. change (List.length Knapsack.selections) with 8%nat in Hn.
  do 8 (destruct n as [|n]; [assumption|]). lia.
Qed.

Lemma model_of_selection (sel : list bool) :
  List.length sel = 8%nat -> Knapsack.is_selection_of (Knapsack.model_of sel) sel.
Proof.
  intro Hlen.
  destruct sel as [|b0 [|b1 [|b2 [|b3 [|b4 [|b5 [|b6 [|b7 [|? ?]]]]]]]]];
    try discriminate Hlen.
  split; [reflexivity|]. intros n Hn.
  change (List.length Knapsack.selections) with 8%nat in Hn.
  do 8 (destruct n as [|n]; [reflexivity|]). lia.
Qed.

Lemma knapsack_model_iff (m : model) (sel : list bool) :
  Knapsack.is_selection_of m sel ->
  (is_model m Knapsack.knapsack <->
   Knapsack.selected_sum sel Knapsack.weights <= Knapsack.capacity).
Proof.
  intro H. destruct (eval_knapsack m sel H) as [Hw _].
  unfold is_model, Knapsack.knapsack, Solver, add. rewrite app_nil_l.
  rewrite Forall_cons_iff. unfold holds.
  change (eval m (Le Knapsack.total_weight (Num Knapsack.capacity)))
    with (option_map VBool
            (bind2 (compare Z.leb Rle_bool) (eval m Knapsack.total_weight)
                   (Some (VInt Knapsack.capacity)))).
  rewrite Hw. cbn [bind2 bind compare option_map]. split.
  - intros [E _]. apply some_vbool_true in E. now apply Z.leb_le.
  - intro E. apply Z.leb_le in E. rewrite E. split; [reflexivity | constructor].
Qed.

Lemma selection_length (m : model) (sel : list bool) :
  Knapsack.is_selection_of m sel -> List.length sel = 8%nat.
Proof. now intros [H _]. Qed.

Lemma knapsack_models_bounded (m : model) (v : Z) :
  is_model m Knapsack.knapsack ->
  eval m Knapsack.objective = Some (VInt v) -> v <= 862.
Proof.
  intros Hm Hv. destruct (objective_selection m _ Hv) as [sel Hsel].
  destruct (eval_knapsack m sel Hsel) as [_ Hval].
  unfold Knapsack.objective in Hv. rewrite Hval in Hv. injection Hv as <-.
  apply knapsack_bound.
  - now apply (selection_length m).
  - now apply (knapsack_model_iff m sel Hsel).
Qed.

Lemma printed_selection_is_maximum :
  is_maximum Knapsack.knapsack Knapsack.objective
             (Knapsack.model_of Knapsack.printed_selection) 862.
Proof.
  split; [|split].
  - apply is_model_forallb. vm_compute. reflexivity.
  - vm_compute. reflexivity.
  - intros m' v'. apply knapsack_models_bounded.
Qed.

(** C1: whatever the optimizing solve returns for the knapsack, a model
    together with the value of the objective, the model holds a selection
    of the eight items whose total weight is at most 80 and whose total
    value is the reported objective value; no selection of total weight at
    most 80 has a greater total value; and the reported value is 862. *)
Theorem knapsack_optimum (m : model) (best : Z) :
  is_maximum Knapsack.knapsack Knapsack.objective m best ->
  exists sel,
    Knapsack.is_selection_of m sel /\
    Knapsack.selected_sum sel Knapsack.weights <= 80 /\
    Knapsack.selected_sum sel Knapsack.values = best /\
    (forall sel', List.length sel' = List.length Knapsack.selections ->
                  Knapsack.selected_sum sel' Knapsack.weights <= 80 ->
                  Knapsack.selected_sum sel' Knapsack.values <= best) /\
    best = 862.
Proof.
  intros (Hm & Hbest & Hmax).
  destruct (objective_selection m _ Hbest) as [sel Hsel].
  destruct (eval_knapsack m sel Hsel) as [_ Hval].
  unfold Knapsack.objective in Hbest. rewrite Hval in Hbest. injection Hbest as Hbest.
  assert (best = 862) as E.
  { apply Z.le_antisymm.
    - rewrite <- Hbest. apply knapsack_bound.
      + now apply (selection_length m).
      + now apply (knapsack_model_iff m sel Hsel).
    - destruct printed_selection_is_maximum as (Hm' & Hv' & _).
      now apply (Hmax _ _ Hm' Hv'). }
  exists sel. split; [assumption|]. split.
  - now apply (knapsack_model_iff m sel Hsel).
  - split; [assumption|]. split; [|assumption].
    intros sel' Hlen Hw. rewrite E. now apply knapsack_bound.
Qed.

(** The printed result, items 0, 1, 2, 3 and 6 with value 862, is one. *)
Lemma knapsack_optimum_witness :
  is_maximum Knapsack.knapsack Knapsack.objective
             (Knapsack.model_of Knapsack.printed_selection) 862 /\
  exists sel,
    Knapsack.is_selection_of (Knapsack.model_of Knapsack.printed_selection) sel /\
    Knapsack.selected_sum sel Knapsack.weights <= 80 /\
    Knapsack.selected_sum sel Knapsack.values = 862.
Proof.
  split; [exact printed_selection_is_maximum|].
  destruct (knapsack_optimum _ _ printed_selection_is_maximum)
    as (sel & H1 & H2 & H3 & _).
  exists sel. split; [exact H1|]. split; [exact H2 | exact H3].
Defined.

(** ** Sudoku: the constraints given to the solver *)

Lemma in_enumerate_from {A} (l : list A) (start i : nat) (x : A) :
  In (i, x) (combine (seq start (List.length l)) l) <->
  (start <= i)%nat /\ nth_error l (i - start) = Some x.
Proof.
  revert start. induction l as [|a l IH]; intro start; simpl.
  - split; [tauto|]. intros [_ H]. now destruct (i - start)%nat.
  - rewrite IH. split.
    + intros [E | [Hle H]].
      * injection E as <- <-. rewrite Nat.sub_diag. split; [lia | reflexivity].
      * split; [lia|]. replace (i - start)%nat with (S (i - S start)) by lia. exact H.
    + intros [Hle H]. destruct (Nat.eq_dec i start) as [-> | Hne].
      * left. rewrite Nat.sub_diag in H. simpl in H. now injection H as ->.
      * right. split; [lia|].
        replace (i - start)%nat with (S (i - S start)) in H by lia. exact H.
Qed.

Lemma in_enumerate {A} (l : list A) (i : nat) (x : A) :
  In (i, x) (Py.enumerate l) <-> nth_error l i = Some x.
Proof.
  unfold Py.enumerate. rewrite in_enumerate_from, Nat.sub_0_r.
  split; [tauto | intro; split; [lia | assumption]].
Qed.

Lemma clue_digit (c : ascii) :
  Sudoku.is_clue c = true ->
  Py.int_of_char c = Some (Z.of_nat (nat_of_ascii c - 48)).
Proof.
  unfold Sudoku.is_clue, Py.char_in. intro H.
  apply existsb_exists in H. destruct H as [c' [Hin E]].
  apply Ascii.eqb_eq in E. subst c'.
  simpl in Hin.
  repeat (destruct Hin as [<- | Hin]; [reflexivity|]). destruct Hin.
Qed.

Lemma in_clues (i : nat) (d : Z) :
  In (i, d) Sudoku.clues <->
  exists c, nth_error Sudoku.start_cells i = Some c /\
            Sudoku.is_clue c = true /\ Py.int_of_char c = Some d.
Proof.
  unfold Sudoku.clues. rewrite in_flat_map. split.
  - intros [[j c] [Hin H]]. simpl in H.
    destruct (Sudoku.is_clue c) eqn:Hc; [|destruct H].
    destruct H as [E | []]. injection E as <- <-.
    exists c. split; [now apply in_enumerate|]. split; [assumption|].
    now apply clue_digit.
  - intros [c (Hn & Hc & Hd)]. exists (i, c). split; [now apply in_enumerate|].
    simpl. rewrite Hc. left. rewrite (clue_digit c Hc) in Hd. now injection Hd as ->.
Qed.

Lemma sudoku_s :
  Sudoku.s =
  Some ((Sudoku.rows ++ Sudoku.cols ++
         map (fun p => Sudoku.distinct_cells (Sudoku.block_indices (fst p) (snd p)))
             Sudoku.sq3x3) ++
        in_range 1 10 (map Const Sudoku.cells) ++
        Sudoku.clue_equalities ++ [Sudoku.extra_rule]).
Proof. vm_compute. reflexivity. Qed.

(** C5, as the claim states it, fails: the rules added after the generic
    rules and the domain constraint are not just the clue equalities, the
    disequality of cell 0 and 5 is among them. *)
Lemma instance_rules_not_only_clues :
  Sudoku.instance_rules <> Some Sudoku.clue_equalities /\
  exists rules, Sudoku.instance_rules = Some rules /\
                In (Ne (Int "0") (Num 5)) rules /\
                ~ In (Ne (Int "0") (Num 5)) Sudoku.clue_equalities.
Proof.
  split.
  - vm_compute. discriminate.
  - exists (Sudoku.clue_equalities ++ [Sudoku.extra_rule]). split; [|split].
    + vm_compute. reflexivity.
    + apply in_or_app. right. now left.
    + unfold Sudoku.clue_equalities. intro H. apply in_map_iff in H.
      destruct H as [p [E _]]. discriminate E.
Qed.

(** C5, amended: the rules added after the generic rules and the domain
    constraint are one equality per pre-filled digit of the template, in
    template order, each fixing the cell of that placeholder to the digit,
    followed by exactly one more constraint, cell 0 differs from 5. *)
Theorem instance_rules_spec :
  Sudoku.instance_rules = Some (Sudoku.clue_equalities ++ [Ne (Int "0") (Num 5)]) /\
  Sudoku.clue_equalities =
    map (fun p => Eq (Sudoku.var (fst p)) (Num (snd p))) Sudoku.clues /\
  List.length Sudoku.clue_equalities =
    List.length (filter Sudoku.is_clue (list_ascii_of_string Sudoku.puzzle)) /\
  (forall i d, In (i, d) Sudoku.clues <->
     exists c, nth_error Sudoku.start_cells i = Some c /\
               Sudoku.is_clue c = true /\ Py.int_of_char c = Some d) /\
  NoDup (map fst Sudoku.clues).
Proof.
  split; [vm_compute; reflexivity|].
  split; [reflexivity|].
  split; [reflexivity|].
  split; [exact in_clues|].
  apply (nodupb_NoDup Nat.eqb Nat.eqb_eq). reflexivity.
Qed.

(** The digit 9 at placeholder 4 of the template is a clue. *)
Lemma instance_rules_spec_witness : In (4%nat, 9) Sudoku.clues.
Proof.
  apply (proj1 (proj2 (proj2 (proj2 instance_rules_spec)))).
  exists "9"%char. repeat split; reflexivity.
Defined.

(** ** Sudoku: what a model of the constraints looks like *)

Lemma holds_int_eq_num (m : model) (n : string) (d : Z) :
  holds m (Eq (Int n) (Num d)) <-> int_interp m n = Some d.
Proof.
  unfold holds. simpl. unfold get_interp. simpl.
  destruct (int_interp m n) as [z|]; simpl.
  - split; intro H.
    + apply some_vbool_true, Z.eqb_eq in H. now subst z.
    + injection H as ->. now rewrite Z.eqb_refl.
  - split; discriminate.
Qed.

Lemma permutation_one_to_nine (l : list Z) :
  List.length l = 9%nat -> NoDup l -> Forall (fun z => 1 <= z /\ z < 10) l ->
  Permutation l Sudoku.one_to_nine.
Proof.
  intros Hlen Hnd Hr. apply NoDup_Permutation_bis; [assumption | |].
  - rewrite Hlen. apply Nat.le_refl.
  - intros z Hz. rewrite Forall_forall in Hr. specialize (Hr z Hz).
    unfold Sudoku.one_to_nine. simpl.
    assert (z = 1 \/ z = 2 \/ z = 3 \/ z = 4 \/ z = 5 \/ z = 6 \/ z = 7 \/ z = 8 \/ z = 9)
      by lia.
    intuition.
Qed.

Section SudokuModel.

Variable m : model.
Variable grid : list Z.
Hypothesis Hgrid : Sudoku.is_grid_of m grid.

Lemma cell_value (k : nat) :
  (k < 81)%nat -> eval m (Const (Sudoku.var k)) = Some (VInt (nth k grid 0)).
Proof. intro Hk. apply eval_int. now apply Hgrid. Qed.

Lemma cell_values (ks : list nat) :
  Forall (fun k => (k < 81)%nat) ks ->
  Forall2 (fun e z => eval m e = Some (VInt z))
          (map (fun k => Const (Sudoku.var k)) ks) (Sudoku.at_indices grid ks).
Proof.
  induction 1 as [|k ks Hk _ IH]; simpl; constructor.
  - now apply cell_value.
  - exact IH.
Qed.

Lemma distinct_cells_NoDup (ks : list nat) :
  Forall (fun k => (k < 81)%nat) ks ->
  holds m (Sudoku.distinct_cells ks) -> NoDup (Sudoku.at_indices grid ks).
Proof.
  intros Hks H. apply (holds_Distinct_ints m _ _ (cell_values ks Hks)). exact H.
Qed.

End SudokuModel.

Lemma domain_gives_grid (m : model) :
  is_model m (in_range 1 10 (map Const Sudoku.cells)) ->
  exists grid, Sudoku.is_grid_of m grid /\ Forall (fun z => 1 <= z /\ z < 10) grid.
Proof.
  intro H.
  assert (forall k, (k < 81)%nat ->
                    exists z, int_interp m (Py.str_nat k) = Some z /\ 1 <= z /\ z < 10) as Hk.
  { intros k Hk. apply (in_range_int m 1 10 (map Const Sudoku.cells)); [assumption|].
    apply in_map. unfold Sudoku.cells. apply in_map_iff.
    exists k. split; [reflexivity | apply in_seq; lia]. }
  set (value := fun k => match int_interp m (Py.str_nat k) with Some z => z | None => 0 end).
  exists (map value (seq 0 81)).
  assert (forall i, (i < 81)%nat -> nth i (map value (seq 0 81)) 0 = value i) as Hnth.
  { intros i Hi. rewrite (nth_indep _ 0 (value 0%nat)) by (rewrite length_map, length_seq; lia).
    rewrite map_nth, seq_nth by lia. reflexivity. }
  split; [split|].
  - now rewrite length_map, length_seq.
  - intros i Hi. rewrite (Hnth i Hi). unfold value.
    destruct (Hk i Hi) as [z [-> _]]. reflexivity.
  - apply Forall_map, Forall_forall. intros k Hin. apply in_seq in Hin.
    unfold value. destruct (Hk k) as [z [-> Hz]]; [lia | exact Hz].
Qed.

Lemma at_indices_range (grid : list Z) (ks : list nat) :
  List.length grid = 81%nat -> Forall (fun z => 1 <= z /\ z < 10) grid ->
  Forall (fun k => (k < 81)%nat) ks ->
  Forall (fun z => 1 <= z /\ z < 10) (Sudoku.at_indices grid ks).
Proof.
  intros Hlen Hr Hks. unfold Sudoku.at_indices. apply Forall_map.
  apply Forall_forall. intros k Hk. rewrite Forall_forall in Hks, Hr.
  apply Hr, nth_In. rewrite Hlen. now apply Hks.
Qed.

Lemma unit_is_permutation (m : model) (grid : list Z) (ks : list nat) :
  Sudoku.is_grid_of m grid -> Forall (fun z => 1 <= z /\ z < 10) grid ->
  List.length ks = 9%nat -> Forall (fun k => (k < 81)%nat) ks ->
  holds m (Sudoku.distinct_cells ks) ->
  Permutation (Sudoku.at_indices grid ks) Sudoku.one_to_nine.
Proof.
  intros Hg Hr Hlen Hks H. apply permutation_one_to_nine.
  - unfold Sudoku.at_indices. now rewrite length_map.
  - now apply (distinct_cells_NoDup m).
  - apply at_indices_range; [apply Hg | assumption | assumption].
Qed.

Lemma rows_are (row : nat) :
  (row < 9)%nat ->
  nth_error Sudoku.rows row = Some (Sudoku.distinct_cells (Sudoku.row_indices row)).
Proof. intro H. do 9 (destruct row as [|row]; [reflexivity|]). lia. Qed.

Lemma cols_are (col : nat) :
  (col < 9)%nat ->
  nth_error Sudoku.cols col = Some (Sudoku.distinct_cells (Sudoku.col_indices col)).
Proof. intro H. do 9 (destruct col as [|col]; [reflexivity|]). lia. Qed.

Lemma block_indices_box (R C : nat) :
  (R < 3)%nat -> (C < 3)%nat -> Sudoku.block_indices R C = Sudoku.box_indices R C.
Proof.
  intros HR HC.
  do 3 (destruct R as [|R]; [do 3 (destruct C as [|C]; [reflexivity|]); lia|]). lia.
Qed.

Lemma indices_below_81 :
  (forall row, (row < 9)%nat -> Forall (fun k => (k < 81)%nat) (Sudoku.row_indices row)) /\
  (forall col, (col < 9)%nat -> Forall (fun k => (k < 81)%nat) (Sudoku.col_indices col)) /\
  (forall R C, (R < 3)%nat -> (C < 3)%nat ->
               Forall (fun k => (k < 81)%nat) (Sudoku.box_indices R C)).
Proof.
  split; [|split].
  - intros row H. unfold Sudoku.row_indices. apply Forall_map, Forall_forall.
    intros col Hc. apply in_seq in Hc. lia.
  - intros col H. unfold Sudoku.col_indices. apply Forall_map, Forall_forall.
    intros row Hr. apply in_seq in Hr. lia.
  - intros R C HR HC. unfold Sudoku.box_indices. apply Forall_forall.
    intros k Hk. apply in_flat_map in Hk. destruct Hk as [row [Hrow Hk]].
    apply in_map_iff in Hk. destruct Hk as [col [<- Hcol]].
    apply in_seq in Hrow. apply in_seq in Hcol. lia.
Qed.

Lemma given_is_clue (row col : nat) (d : Z) :
  (row < 9)%nat -> (col < 9)%nat -> Sudoku.given row col = Some d ->
  In ((9 * row + col)%nat, d) Sudoku.clues.
Proof.
  intros Hrow Hcol Hd.
  assert (forallb (fun row => forallb (fun col =>
            match Sudoku.given row col with
            | Some d => existsb (fun p => Nat.eqb (fst p) (9 * row + col) && Z.eqb (snd p) d)
                                Sudoku.clues
            | None => true
            end) (seq 0 9)) (seq 0 9) = true) as H by (vm_compute; reflexivity).
  rewrite forallb_forall in H. specialize (H row). rewrite forallb_forall in H.
  specialize (H ltac:(apply in_seq; lia) col ltac:(apply in_seq; lia)).
  rewrite Hd in H. apply existsb_exists in H. destruct H as [[i d'] [Hin E]].
  cbn [fst snd] in E. apply andb_true_iff in E. destruct E as [Ei Ed].
  apply Nat.eqb_eq in Ei. apply Z.eqb_eq in Ed. now subst i d'.
Qed.

(** C3: in every model of the constraints the Sudoku solver holds when it
    is checked, the 81 cells have integer values forming a grid in which
    each of the nine rows, nine columns and nine 3x3 blocks is a
    permutation of 1..9, and wherever the puzzle template gives a digit,
    at a grid row and column or, the same, at a placeholder counted in
    template order, the cell there has that digit.  The template's grid
    positions hold all its digits. *)
Theorem sudoku_model (s : solver) (m : model) :
  Sudoku.s = Some s -> is_model m s ->
  exists grid,
    Sudoku.is_grid_of m grid /\ Sudoku.solved grid /\
    Sudoku.agrees_with_template grid /\ Sudoku.agrees_with_clues grid /\
    List.length Sudoku.given_positions =
    List.length (filter Sudoku.is_digit (list_ascii_of_string Sudoku.puzzle)).
Proof.
  intros Hs Hm. rewrite sudoku_s in Hs. apply some_inj in Hs. subst s.
  unfold is_model in Hm. rewrite !Forall_app in Hm.
  destruct Hm as ((Hrows & Hcols & Hblocks) & Hdom & Hclues & _).
  destruct (domain_gives_grid m Hdom) as (grid & Hgrid & Hrange).
  destruct indices_below_81 as (Brow & Bcol & Bbox).
  rewrite Forall_forall in Hrows, Hcols, Hblocks, Hclues.
  assert (forall i d, (i < 81)%nat -> In (i, d) Sudoku.clues -> nth i grid 0 = d) as Hcl.
  { intros i d Hlt Hin.
    assert (holds m (Eq (Int (Py.str_nat i)) (Num d))) as H.
    { apply Hclues. unfold Sudoku.clue_equalities. apply in_map_iff.
      now exists (i, d). }
    apply holds_int_eq_num in H.
    destruct Hgrid as [_ Hg]. rewrite (Hg i Hlt) in H. now injection H. }
  exists grid. split; [exact Hgrid|]. split; [split; [|split]|split; [|split]].
  - intros row Hrow. apply (unit_is_permutation m); auto.
    apply Hrows. eapply nth_error_In. now apply rows_are.
  - intros col Hcol. apply (unit_is_permutation m); auto.
    apply Hcols. eapply nth_error_In. now apply cols_are.
  - intros R C HR HC. apply (unit_is_permutation m); auto.
    rewrite <- block_indices_box by assumption.
    apply Hblocks. apply in_map_iff. exists (R, C). split; [reflexivity|].
    now apply in_sq3x3.
  - intros row col d Hrow Hcol Hd. apply Hcl; [lia|].
    now apply given_is_clue.
  - intros i c d Hi Hc Hd.
    assert (i < 81)%nat as Hlt.
    { change 81%nat with (List.length Sudoku.start_cells).
      apply nth_error_Some. now rewrite Hi. }
    apply Hcl; [assumption|]. apply in_clues. now exists c.
  - reflexivity.
Qed.

Lemma printed_grid_is_model :
  exists s, Sudoku.s = Some s /\ is_model (Sudoku.model_of Sudoku.printed_grid) s.
Proof.
  destruct Sudoku.s as [s|] eqn:E; [|discriminate E].
  exists s. split; [reflexivity|]. apply is_model_forallb.
  assert (option_map (forallb (holdsb (Sudoku.model_of Sudoku.printed_grid))) Sudoku.s
          = Some true) as H by (vm_compute; reflexivity).
  rewrite E in H. now injection H.
Qed.

(** The grid the notebook prints gives a model of the constraints. *)
Lemma sudoku_model_witness :
  exists s grid,
    Sudoku.s = Some s /\ is_model (Sudoku.model_of Sudoku.printed_grid) s /\
    Sudoku.is_grid_of (Sudoku.model_of Sudoku.printed_grid) grid /\
    Sudoku.solved grid /\ Sudoku.agrees_with_template grid /\
    Sudoku.agrees_with_clues grid.
Proof.
  destruct printed_grid_is_model as (s & Hs & Hm).
  destruct (sudoku_model s _ Hs Hm) as (grid & H1 & H2 & H3 & H4 & _).
  exists s, grid. split; [exact Hs|]. split; [exact Hm|].
  split; [exact H1|]. split; [exact H2|]. split; [exact H3 | exact H4].
Defined.

(** ** Sudoku: [display] *)

Lemma chars_append (s1 s2 : string) :
  list_ascii_of_string (s1 ++ s2) = list_ascii_of_string s1 ++ list_ascii_of_string s2.
Proof. induction s1 as [|c s1 IH]; simpl; [reflexivity | now rewrite IH]. Qed.

Lemma length_chars (s : string) :
  List.length (list_ascii_of_string s) = String.length s.
Proof. induction s as [|c s IH]; simpl; [reflexivity | now rewrite IH]. Qed.

Lemma str_int_digit (z : Z) :
  0 <= z <= 9 -> Py.str_int z = String (Sudoku.digit_char z) "".
Proof.
  intro H.
  assert (z = 0 \/ z = 1 \/ z = 2 \/ z = 3 \/ z = 4 \/ z = 5 \/ z = 6 \/ z = 7 \/
          z = 8 \/ z = 9) as Hz by lia.
  repeat (destruct Hz as [-> | Hz]; [reflexivity|]). now subst z.
Qed.

Lemma placeholders_cons (c : ascii) (rest : list ascii) :
  Sudoku.placeholders (c :: rest) =
  ((if Sudoku.is_placeholder c then 1 else 0) + Sudoku.placeholders rest)%nat.
Proof.
  unfold Sudoku.placeholders. simpl. now destruct (Sudoku.is_placeholder c).
Qed.

Section DisplayFacts.

Variable real_str : R -> string.
Variable m : model.

(** The counter moves by one on a placeholder and stays put otherwise. *)
Lemma display_char_counter (vs vs' : nat) (c : ascii) (piece : string) :
  Sudoku.display_char real_str m vs c = Some (vs', piece) ->
  vs' = if Sudoku.is_placeholder c then S vs else vs.
Proof.
  unfold Sudoku.display_char. destruct (Sudoku.is_placeholder c).
  - destruct (nth_error Sudoku.cells vs); simpl; [|discriminate].
    intro H. now injection H as <- _.
  - intro H. now injection H as <- _.
Qed.

Hypothesis Hdigits : Sudoku.single_digits m.

Lemma display_char_digit (vs : nat) (c : ascii) :
  (vs < 81)%nat -> Sudoku.is_placeholder c = true ->
  Sudoku.display_char real_str m vs c =
  Some (S vs, String (Sudoku.digit_char (Sudoku.cell_digit m vs)) "").
Proof.
  intros Hvs Hc. unfold Sudoku.display_char. rewrite Hc, (nth_error_cells vs Hvs).
  simpl. unfold get_interp, Sudoku.cell_digit. simpl.
  destruct (Hdigits vs Hvs) as [z [-> Hz]]. simpl.
  now rewrite (str_int_digit z Hz).
Qed.

Lemma display_from_spec (template : list ascii) :
  forall vs, (vs + Sudoku.placeholders template <= 81)%nat ->
  exists out,
    Sudoku.display_from real_str m vs template =
      Some ((vs + Sudoku.placeholders template)%nat, out) /\
    String.length out = List.length template /\
    forall p c, nth_error template p = Some c ->
      nth_error (list_ascii_of_string out) p =
      Some (if Sudoku.is_placeholder c
            then Sudoku.digit_char
                   (Sudoku.cell_digit m (vs + Sudoku.placeholders (firstn p template)))
            else c).
Proof.
  induction template as [|c rest IH]; intros vs Hvs.
  - exists "". simpl. rewrite Nat.add_0_r. repeat split.
    intros p c H. now destruct p.
  - rewrite placeholders_cons in Hvs. simpl Sudoku.display_from.
    destruct (Sudoku.is_placeholder c) eqn:Hc.
    + rewrite display_char_digit by (assumption || lia). simpl.
      destruct (IH (S vs)) as (out & Hrun & Hlen & Hpos); [lia|].
      rewrite Hrun. simpl.
      exists (String (Sudoku.digit_char (Sudoku.cell_digit m vs)) out).
      rewrite placeholders_cons, Hc. split; [do 2 f_equal; lia|].
      split; [simpl; now rewrite Hlen|].
      intros [|p] c' H; simpl in H.
      * injection H as <-. rewrite Hc. simpl. now rewrite Nat.add_0_r.
      * simpl firstn. rewrite placeholders_cons, Hc. simpl nth_error.
        rewrite (Hpos p c' H).
        now replace (vs + (1 + Sudoku.placeholders (firstn p rest)))%nat
          with (S vs + Sudoku.placeholders (firstn p rest))%nat by lia.
    + unfold Sudoku.display_char at 1. rewrite Hc. simpl.
      destruct (IH vs) as (out & Hrun & Hlen & Hpos); [lia|].
      rewrite Hrun. simpl. exists (String c out).
      rewrite placeholders_cons, Hc. split; [reflexivity|].
      split; [simpl; now rewrite Hlen|].
      intros [|p] c' H; simpl in H.
      * injection H as <-. now rewrite Hc.
      * simpl firstn. rewrite placeholders_cons, Hc. simpl nth_error.
        now rewrite (Hpos p c' H).
Qed.

End DisplayFacts.

Lemma placeholders_firstn (p : nat) (template : list ascii) :
  (Sudoku.placeholders (firstn p template) <= Sudoku.placeholders template)%nat.
Proof.
  revert p. induction template as [|c rest IH]; intro p.
  - now rewrite firstn_nil.
  - destruct p as [|p]; [apply Nat.le_0_l|].
    simpl firstn. rewrite !placeholders_cons. specialize (IH p). lia.
Qed.

Lemma single_digits_check (m : model) :
  forallb (fun k => match int_interp m (Py.str_nat k) with
                    | Some z => (0 <=? z) && (z <=? 9)
                    | None => false
                    end) (seq 0 81) = true ->
  Sudoku.single_digits m.
Proof.
  intros H k Hk. rewrite forallb_forall in H.
  specialize (H k). destruct (int_interp m (Py.str_nat k)) as [z|].
  - exists z. split; [reflexivity|].
    assert ((0 <=? z) && (z <=? 9) = true) as Hz by (apply H, in_seq; lia). lia.
  - assert (false = true) by (apply H, in_seq; lia). discriminate.
Qed.

Lemma total_on_cells_check (m : model) :
  forallb (fun k => match int_interp m (Py.str_nat k) with
                    | Some _ => true
                    | None => false
                    end) (seq 0 81) = true ->
  Sudoku.total_on_cells m.
Proof.
  intros H k Hk. rewrite forallb_forall in H.
  specialize (H k). unfold get_interp. simpl.
  destruct (int_interp m (Py.str_nat k)) as [z|].
  - now exists (VInt z).
  - assert (false = true) by (apply H, in_seq; lia). discriminate.
Qed.

(** C6, as the claim states it, fails: a model giving every cell the value
    10 gives every cell a value, and [display] returns a string longer
    than the template. *)
Lemma display_longer_than_template :
  Sudoku.total_on_cells (Sudoku.model_of (repeat 10 81)) /\
  exists out,
    Sudoku.display (fun _ => "") (Sudoku.model_of (repeat 10 81)) = Some out /\
    String.length out <> String.length Sudoku.puzzle.
Proof.
  split.
  - apply total_on_cells_check. vm_compute. reflexivity.
  - destruct (Sudoku.display (fun _ => "") (Sudoku.model_of (repeat 10 81)))
      as [out|] eqn:E; [|discriminate E].
    exists out. split; [reflexivity|].
    assert (option_map String.length
              (Sudoku.display (fun _ => "") (Sudoku.model_of (repeat 10 81)))
            = Some 213%nat) as H by (vm_compute; reflexivity).
    rewrite E in H. simpl in H. apply some_inj in H. rewrite H.
    vm_compute. discriminate.
Qed.

(** C6, amended: for every model giving each of the 81 cells a one-digit
    value (0..9), [display] returns a string as long as the template, with
    every structural character at its place and the placeholder at
    position [p] replaced by the digit of the cell whose number is the
    count of placeholders before [p]; after any prefix of the template the
    counter equals the number of placeholders in the prefix, and one step
    moves it by one on a placeholder and leaves it alone otherwise. *)
Theorem display_spec (real_str : R -> string) (m : model) :
  Sudoku.single_digits m ->
  let template := list_ascii_of_string Sudoku.puzzle in
  exists out,
    Sudoku.display real_str m = Some out /\
    String.length out = String.length Sudoku.puzzle /\
    (forall p c, nth_error template p = Some c ->
       Sudoku.is_structural c = negb (Sudoku.is_placeholder c) /\
       (Sudoku.is_structural c = true ->
        nth_error (list_ascii_of_string out) p = Some c) /\
       (Sudoku.is_placeholder c = true ->
        nth_error (list_ascii_of_string out) p =
        Some (Sudoku.digit_char
                (Sudoku.cell_digit m (Sudoku.placeholders (firstn p template)))))) /\
    (forall p, exists out',
       Sudoku.display_from real_str m 0 (firstn p template) =
       Some (Sudoku.placeholders (firstn p template), out')) /\
    (forall vs vs' c piece,
       Sudoku.display_char real_str m vs c = Some (vs', piece) ->
       vs' = if Sudoku.is_placeholder c then S vs else vs).
Proof.
  intros Hd template.
  assert (Sudoku.placeholders template = 81%nat) as Hcount by reflexivity.
  destruct (display_from_spec real_str m Hd template 0) as (out & Hrun & Hlen & Hpos);
    [rewrite Hcount; apply Nat.le_refl|].
  exists out. split; [|split; [|split; [|split]]].
  - unfold Sudoku.display. fold template. now rewrite Hrun.
  - rewrite Hlen. apply length_chars.
  - intros p c Hc.
    assert (Sudoku.is_structural c = negb (Sudoku.is_placeholder c)) as Hs.
    { assert (forallb (fun c => Bool.eqb (Sudoku.is_structural c)
                                         (negb (Sudoku.is_placeholder c))) template = true)
        as H by reflexivity.
      rewrite forallb_forall in H. apply Bool.eqb_prop, H.
      eapply nth_error_In; eassumption. }
    split; [exact Hs|]. specialize (Hpos p c Hc). split.
    + intro H. rewrite H in Hs. symmetry in Hs. apply negb_true_iff in Hs.
      now rewrite Hs in Hpos.
    + intro H. now rewrite H in Hpos.
  - intro p.
    destruct (display_from_spec real_str m Hd (firstn p template) 0) as (out' & Hrun' & _).
    + rewrite <- Hcount. apply placeholders_firstn.
    + now exists out'.
  - intros vs vs' c piece. apply display_char_counter.
Qed.

(** The printed grid has one-digit values, and is displayed as printed. *)
Lemma display_spec_witness :
  Sudoku.single_digits (Sudoku.model_of Sudoku.printed_grid) /\
  exists out,
    Sudoku.display (fun _ => "") (Sudoku.model_of Sudoku.printed_grid) = Some out /\
    String.length out = String.length Sudoku.puzzle.
Proof.
  assert (Sudoku.single_digits (Sudoku.model_of Sudoku.printed_grid)) as H
    by (apply single_digits_check; vm_compute; reflexivity).
  split; [exact H|].
  destruct (display_spec (fun _ => "") _ H) as (out & H1 & H2 & _).
  exists out. split; [exact H1 | exact H2].
Defined.

(** * Further properties of the notebook's functions *)

(** ** [amount]: concatenation, bounds, uniqueness, failure *)

Lemma horner_snoc (vs : list Z) (d : Z) :
  Cryptarithm.horner (vs ++ [d]) = Cryptarithm.horner vs * 10 + d.
Proof. unfold Cryptarithm.horner. now rewrite fold_left_app. Qed.

Lemma amount_values (m : model) (digits : list const) :
  Cryptarithm.amount m digits =
  option_map Cryptarithm.horner (Cryptarithm.digit_values m digits).
Proof.
  induction digits as [|d digits IH] using rev_ind; [reflexivity|].
  rewrite amount_snoc, IH. unfold Cryptarithm.digit_values.
  rewrite map_app. simpl map. rewrite sequence_snoc.
  destruct (sequence _) as [vs|]; simpl; [|reflexivity].
  destruct (as_long (get_interp m d)) as [x|]; simpl; [|reflexivity].
  now rewrite horner_snoc.
Qed.

Lemma horner_app (vs ws : list Z) :
  Cryptarithm.horner (vs ++ ws) =
  Cryptarithm.horner vs * 10 ^ Z.of_nat (List.length ws) + Cryptarithm.horner ws.
Proof.
  induction ws as [|w ws IH] using rev_ind.
  - rewrite app_nil_r. simpl. unfold Cryptarithm.horner at 3. simpl. lia.
  - rewrite app_assoc, !horner_snoc, IH, length_app. simpl List.length.
    rewrite Nat.add_1_r, Nat2Z.inj_succ, Z.pow_succ_r by lia. lia.
Qed.

Lemma sequence_app {A} (l1 l2 : list (option A)) :
  sequence (l1 ++ l2) =
  (xs <- sequence l1 ;; ys <- sequence l2 ;; Some (xs ++ ys)).
Proof.
  induction l1 as [|o l1 IH]; simpl.
  - now destruct (sequence l2).
  - destruct o as [a|]; simpl; [|reflexivity]. rewrite IH.
    destruct (sequence l1); simpl; [|reflexivity].
    now destruct (sequence l2).
Qed.

Lemma sequence_length {A} (l : list (option A)) (xs : list A) :
  sequence l = Some xs -> List.length xs = List.length l.
Proof.
  revert xs. induction l as [|o l IH]; intros xs H; simpl in H.
  - now injection H as <-.
  - destruct o as [a|]; simpl in H; [|discriminate].
    destruct (sequence l) as [ys|]; simpl in H; [|discriminate].
    injection H as <-. simpl. now rewrite (IH ys).
Qed.

Lemma digit_values_length (m : model) (digits : list const) (vs : list Z) :
  Cryptarithm.digit_values m digits = Some vs -> List.length vs = List.length digits.
Proof.
  unfold Cryptarithm.digit_values. intro H.
  apply sequence_length in H. now rewrite length_map in H.
Qed.

(** X1: [amount] of two digit sequences one after the other is the amount
    of the first shifted by the length of the second, plus the amount of
    the second; it fails when either part fails. *)
Theorem amount_app (m : model) (ds1 ds2 : list const) :
  Cryptarithm.amount m (ds1 ++ ds2) =
  (v1 <- Cryptarithm.amount m ds1 ;;
   v2 <- Cryptarithm.amount m ds2 ;;
   Some (v1 * 10 ^ Z.of_nat (List.length ds2) + v2)).
Proof.
  rewrite !amount_values. unfold Cryptarithm.digit_values.
  rewrite map_app, sequence_app.
  destruct (sequence (map _ ds1)) as [vs|] eqn:E1; simpl; [|reflexivity].
  destruct (sequence (map _ ds2)) as [ws|] eqn:E2; simpl; [|reflexivity].
  rewrite horner_app. apply sequence_length in E2. rewrite length_map in E2.
  now rewrite E2.
Qed.

Lemma horner_bounds (vs : list Z) :
  Forall (fun z => 0 <= z <= 9) vs ->
  0 <= Cryptarithm.horner vs < 10 ^ Z.of_nat (List.length vs).
Proof.
  induction vs as [|d vs IH] using rev_ind; intro H.
  - unfold Cryptarithm.horner. simpl. lia.
  - apply Forall_app in H. destruct H as [Hvs Hd]. apply Forall_inv in Hd.
    specialize (IH Hvs). rewrite horner_snoc, length_app. simpl List.length.
    rewrite Nat.add_1_r, Nat2Z.inj_succ, Z.pow_succ_r by lia. lia.
Qed.

(** X2: when each of the [k] digits has a value from 0 to 9 in the model,
    [amount] returns a number from 0 up to, but not including, [10^k]. *)
Theorem amount_bounds (m : model) (digits : list const) (vs : list Z) :
  Cryptarithm.digit_values m digits = Some vs ->
  Forall (fun z => 0 <= z <= 9) vs ->
  exists v, Cryptarithm.amount m digits = Some v /\
            0 <= v < 10 ^ Z.of_nat (List.length digits).
Proof.
  intros Hv Hd. exists (Cryptarithm.horner vs). split.
  - now rewrite amount_values, Hv.
  - rewrite <- (digit_values_length m digits vs Hv). now apply horner_bounds.
Qed.

Lemma amount_bounds_witness :
  exists v, Cryptarithm.amount (Cryptarithm.model_of [9; 5; 6; 7; 1; 0; 8; 2])
              [Cryptarithm.M; Cryptarithm.O; Cryptarithm.N; Cryptarithm.E; Cryptarithm.Y]
            = Some v /\ 0 <= v < 10 ^ Z.of_nat 5.
Proof.
  apply (amount_bounds (Cryptarithm.model_of [9; 5; 6; 7; 1; 0; 8; 2])
           [Cryptarithm.M; Cryptarithm.O; Cryptarithm.N; Cryptarithm.E; Cryptarithm.Y]
           [1; 0; 6; 5; 2]); [reflexivity|].
  repeat constructor; lia.
Defined.

Lemma horner_injective (vs ws : list Z) :
  List.length vs = List.length ws ->
  Forall (fun z => 0 <= z <= 9) vs -> Forall (fun z => 0 <= z <= 9) ws ->
  Cryptarithm.horner vs = Cryptarithm.horner ws -> vs = ws.
Proof.
  revert ws. induction vs as [|d vs IH] using rev_ind; intros ws Hlen Hv Hw E.
  - destruct ws; [reflexivity | discriminate].
  - destruct ws as [|e ws _] using rev_ind.
    + rewrite length_app in Hlen. simpl in Hlen. lia.
    + rewrite !length_app in Hlen. simpl in Hlen.
      apply Forall_app in Hv. destruct Hv as [Hv Hd]. apply Forall_inv in Hd.
      apply Forall_app in Hw. destruct Hw as [Hw He]. apply Forall_inv in He.
      rewrite !horner_snoc in E.
      assert (d = e) by lia. subst e.
      rewrite (IH ws); [reflexivity | lia | assumption | assumption | lia].
Qed.

(** X3: [amount] loses nothing: two digit sequences of the same length
    whose values are all from 0 to 9 and whose amounts are equal have the
    same values, digit by digit. *)
Theorem amount_injective (m m' : model) (ds ds' : list const) (vs vs' : list Z) :
  List.length ds = List.length ds' ->
  Cryptarithm.digit_values m ds = Some vs ->
  Cryptarithm.digit_values m' ds' = Some vs' ->
  Forall (fun z => 0 <= z <= 9) vs -> Forall (fun z => 0 <= z <= 9) vs' ->
  Cryptarithm.amount m ds = Cryptarithm.amount m' ds' ->
  vs = vs'.
Proof.
  intros Hlen Hv Hv' Hd Hd' E. rewrite !amount_values, Hv, Hv' in E.
  simpl in E. apply some_inj in E.
  apply horner_injective; try assumption.
  rewrite (digit_values_length m ds vs Hv), (digit_values_length m' ds' vs' Hv').
  exact Hlen.
Qed.

Lemma amount_injective_witness :
  [1; 0; 6; 5; 2] = [1; 0; 6; 5; 2].
Proof.
  apply (amount_injective
           (Cryptarithm.model_of [9; 5; 6; 7; 1; 0; 8; 2])
           (Cryptarithm.model_of [9; 5; 6; 7; 1; 0; 8; 2])
           [Cryptarithm.M; Cryptarithm.O; Cryptarithm.N; Cryptarithm.E; Cryptarithm.Y]
           [Cryptarithm.M; Cryptarithm.O; Cryptarithm.N; Cryptarithm.E; Cryptarithm.Y]);
    try reflexivity; repeat constructor; lia.
Defined.

(** X4: on integer constants [amount] fails exactly when the model has no
    interpretation for one of the digits. *)
Theorem amount_fails_iff (m : model) (digits : list const) :
  Forall (fun d => sort_of d = IntSort) digits ->
  (Cryptarithm.amount m digits = None <->
   exists d, In d digits /\ int_interp m (name d) = None).
Proof.
  intro Hs. rewrite amount_values. unfold Cryptarithm.digit_values.
  induction digits as [|d digits IH]; simpl.
  - split; [discriminate | intros [d [[] _]]].
  - apply Forall_cons_iff in Hs. destruct Hs as [Hd Hs]. specialize (IH Hs).
    unfold get_interp at 1. rewrite Hd.
    destruct (int_interp m (name d)) as [z|] eqn:Ez; simpl.
    + destruct (sequence _) as [vs|]; simpl in *.
      * split; [discriminate|]. intros [d' [[<- | Hin] E]]; [congruence|].
        assert (Some (Cryptarithm.horner vs) = None) as F
            by (apply IH; now exists d').
        discriminate F.
      * split; [|reflexivity]. intros _.
        destruct (proj1 IH eq_refl) as [d' [Hin E]]. exists d'. split; [now right | exact E].
    + split; [|reflexivity]. intros _. exists d. split; [now left | exact Ez].
Qed.

Lemma amount_fails_iff_witness :
  Cryptarithm.amount (Kinematics.model_of 10 1 20 10 150) [Cryptarithm.M] = None.
Proof.
  apply (amount_fails_iff _ [Cryptarithm.M]); [repeat constructor|].
  exists Cryptarithm.M. split; [now left | reflexivity].
Defined.

(** ** [in_range]: empty intervals and repeated calls *)

Lemma in_in_range (lo hi : Z) (vars : list expr) (c : expr) :
  In c (in_range lo hi vars) <->
  exists var, In var vars /\ c = And (Ge var (Num lo)) (Lt var (Num hi)).
Proof.
  unfold in_range. rewrite in_map_iff.
  split; intros [var [H1 H2]]; exists var; split; auto.
Qed.

Lemma within_empty (lo hi : Z) (x : value) : hi <= lo -> ~ within lo hi x.
Proof.
  intros H Hw. destruct x as [r | z | b]; simpl in Hw.
  - apply IZR_le in H. lra.
  - lia.
  - exact Hw.
Qed.

(** X5: when the upper bound is not above the lower bound, no model
    satisfies any constraint [in_range] returns: the interval is empty. *)
Theorem in_range_empty_interval (lo hi : Z) (vars : list expr) (m : model) (c : expr) :
  hi <= lo -> In c (in_range lo hi vars) -> ~ holds m c.
Proof.
  intros H Hin Hc. apply in_in_range in Hin. destruct Hin as [var [_ ->]].
  apply holds_bounds in Hc. destruct Hc as [x [_ Hw]].
  now apply (within_empty lo hi x).
Qed.

Lemma in_range_empty_interval_witness :
  10 <= 10 /\
  ~ holds (Cryptarithm.model_of [9; 5; 6; 7; 1; 0; 8; 2])
          (And (Ge Cryptarithm.S (Num 10)) (Lt Cryptarithm.S (Num 10))).
Proof.
  split; [lia|].
  apply (in_range_empty_interval 10 10 [Const Cryptarithm.S]); [lia | now left].
Defined.

Lemma within_both (lo1 hi1 lo2 hi2 : Z) (x : value) :
  within lo1 hi1 x /\ within lo2 hi2 x <->
  within (Z.max lo1 lo2) (Z.min hi1 hi2) x.
Proof.
  destruct x as [r | z | b]; simpl; [|lia|tauto].
  destruct (Z.max_spec lo1 lo2) as [[Hl ->] | [Hl ->]];
    destruct (Z.min_spec hi1 hi2) as [[Hh ->] | [Hh ->]];
    try apply IZR_lt in Hl; try apply IZR_le in Hl;
    try apply IZR_lt in Hh; try apply IZR_le in Hh; lra.
Qed.

(** X6: adding [in_range] twice for the same variables, as the cryptarithm
    does for its leading digits, constrains them to the intersection of
    the two intervals: from the larger lower bound to the smaller upper
    bound. *)
Theorem in_range_twice (lo1 hi1 lo2 hi2 : Z) (vars : list expr) (m : model) :
  is_model m (add (add Solver (in_range lo1 hi1 vars)) (in_range lo2 hi2 vars)) <->
  is_model m (in_range (Z.max lo1 lo2) (Z.min hi1 hi2) vars).
Proof.
  rewrite !is_model_add. unfold is_model, Solver, in_range.
  rewrite !Forall_map. split.
  - intros [[_ H1] H2]. rewrite Forall_forall in *. intros var Hv.
    apply holds_bounds. specialize (H1 var Hv). specialize (H2 var Hv).
    apply holds_bounds in H1. apply holds_bounds in H2.
    destruct H1 as [x [Hx H1]]. destruct H2 as [x' [Hx' H2]].
    rewrite Hx in Hx'. injection Hx' as <-.
    exists x. split; [assumption|]. now apply within_both.
  - intro H. split; [split; [constructor|]|]; rewrite Forall_forall in *;
      intros var Hv; specialize (H var Hv); apply holds_bounds in H;
      destruct H as [x [Hx Hw]]; apply within_both in Hw;
      apply holds_bounds; exists x; tauto.
Qed.

(** ** Uniform acceleration: any three bound values *)

Lemma solve_with_iff (m : model) (ku ka kv : Z) :
  is_model m (Kinematics.solve_with ku ka kv) <->
  exists vt vs,
    Kinematics.assigns m (IZR ku) (IZR ka) (IZR kv) vt vs /\
    IZR kv = (IZR ku + IZR ka * vt)%R /\
    vs = (IZR ku * vt + IZR ka * vt * vt / 2)%R.
Proof.
  unfold Kinematics.solve_with, Solver, add. rewrite app_nil_l.
  change (is_model m ?l) with (Forall (holds m) l).
  rewrite Forall_app.
  fold (is_model m Kinematics.rules).
  generalize (is_model m Kinematics.rules) (kinematics_defined m)
             (fun vu va vv vt vs => kinematics_rules m vu va vv vt vs).
  intros rules_hold Hdef Hrules.
  rewrite !Forall_cons_iff.
  change (holds m (Eq Kinematics.u (Num ku))) with (holds m (Eq (Real "u") (Num ku))).
  change (holds m (Eq Kinematics.a (Num ka))) with (holds m (Eq (Real "a") (Num ka))).
  change (holds m (Eq Kinematics.v (Num kv))) with (holds m (Eq (Real "v") (Num kv))).
  rewrite !holds_real_eq_num. split.
  - intros [(Hu & Ha & Hv & _) Hr].
    destruct (Hdef Hr) as (vu & va & vv & vt & vs & Has).
    pose proof (proj1 (Hrules _ _ _ _ _ Has) Hr) as [E1 E2].
    destruct Has as (Hu' & Ha' & Hv' & Ht & Hs).
    rewrite Hu in Hu'. rewrite Ha in Ha'. rewrite Hv in Hv'.
    apply some_inj in Hu'. apply some_inj in Ha'. apply some_inj in Hv'.
    subst vu va vv. exists vt, vs.
    split; [|split; assumption]. unfold Kinematics.assigns. now repeat split.
  - intros (vt & vs & Has & E1 & E2).
    pose proof Has as (Hu & Ha & Hv & Ht & Hs).
    split; [repeat split; assumption || constructor|].
    apply (Hrules _ _ _ _ _ Has). now split.
Qed.

(** X7: with [u], [a] and [v] bound to any integers and [a] not zero, the
    solve has exactly one model for the five variables:
    [t = (v - u) / a] and [s = (v*v - u*u) / (2*a)]. *)
Theorem kinematics_unique_when_accelerating (m : model) (ku ka kv : Z) :
  ka <> 0 ->
  (is_model m (Kinematics.solve_with ku ka kv) <->
   Kinematics.assigns m (IZR ku) (IZR ka) (IZR kv)
     ((IZR kv - IZR ku) / IZR ka)
     ((IZR kv * IZR kv - IZR ku * IZR ku) / (2 * IZR ka))).
Proof.
  intro Hka. assert (IZR ka <> 0%R) as Ha by (now apply not_0_IZR).
  rewrite solve_with_iff. split.
  - intros (vt & vs & Has & E1 & E2).
    assert (vt = ((IZR kv - IZR ku) / IZR ka)%R) as Et by (now field_simplify_eq; [lra|]).
    assert (vs = ((IZR kv * IZR kv - IZR ku * IZR ku) / (2 * IZR ka))%R) as Es.
    { rewrite E2, E1. now field. }
    now rewrite <- Et, <- Es.
  - intro Has. do 2 eexists. split; [exact Has|]. split; now field.
Qed.

Lemma kinematics_unique_when_accelerating_witness :
  is_model (Kinematics.model_of 3 2 11 ((11 - 3) / 2) ((11 * 11 - 3 * 3) / (2 * 2)))
           (Kinematics.solve_with 3 2 11).
Proof.
  apply (proj2 (kinematics_unique_when_accelerating _ 3 2 11 ltac:(lia))).
  unfold Kinematics.assigns. repeat split; reflexivity.
Defined.

(** X8: without acceleration ([a] bound to 0) the solve has no model when
    [u] and [v] are bound to different integers, and when they are bound to
    the same integer every time [t] gives a model, with [s = u*t]: the
    remaining pair is not determined. *)
Theorem kinematics_without_acceleration :
  (forall m ku kv, ku <> kv -> ~ is_model m (Kinematics.solve_with ku 0 kv)) /\
  (forall ku vt,
     is_model (Kinematics.model_of (IZR ku) 0 (IZR ku) vt (IZR ku * vt))
              (Kinematics.solve_with ku 0 ku)).
Proof.
  split.
  - intros m ku kv Hne Hm. apply solve_with_iff in Hm.
    destruct Hm as (vt & vs & _ & E1 & _).
    assert (IZR kv = IZR ku) as E by lra. apply eq_IZR in E. congruence.
  - intros ku vt. apply solve_with_iff. exists vt, (IZR ku * vt)%R.
    split; [|split].
    + unfold Kinematics.assigns. repeat split; reflexivity.
    + lra.
    + lra.
Qed.

(** X9: every model of the two rules also satisfies the other two
    equations of uniform acceleration, [v*v = u*u + 2*a*s] and
    [s = (u + v) / 2 * t]. *)
Theorem kinematics_derived_equations (m : model) :
  is_model m Kinematics.rules ->
  exists vu va vv vt vs,
    Kinematics.assigns m vu va vv vt vs /\
    (vv * vv = vu * vu + 2 * va * vs)%R /\
    (vs = (vu + vv) / 2 * vt)%R.
Proof.
  intro H. destruct (kinematics_defined m H) as (vu & va & vv & vt & vs & Has).
  destruct (proj1 (kinematics_rules m _ _ _ _ _ Has) H) as [E1 E2].
  exists vu, va, vv, vt, vs. split; [exact Has|]. subst vv vs. split; field.
Qed.

Lemma kinematics_derived_equations_witness :
  exists vu va vv vt vs,
    Kinematics.assigns (Kinematics.model_of 10 1 20 10 150) vu va vv vt vs /\
    (vv * vv = vu * vu + 2 * va * vs)%R /\
    (vs = (vu + vv) / 2 * vt)%R.
Proof.
  apply kinematics_derived_equations.
  apply (kinematics_rules _ 10 1 20 10 150).
  - unfold Kinematics.assigns. repeat split; reflexivity.
  - split; lra.
Defined.

(** ** Knapsack: the weighted sum for any items *)

Section WeightedSum.

Variable m : model.

Lemma eval_sum_from (terms : list expr) (zs : list Z) :
  Forall2 (fun t z => eval m t = Some (VInt z)) terms zs ->
  forall acc a, eval m acc = Some (VInt a) ->
  eval m (fold_left Add terms acc) = Some (VInt (a + fold_right Z.add 0 zs)).
Proof.
  induction 1 as [|t z terms zs Ht _ IH]; intros acc a Ha; simpl.
  - now rewrite Z.add_0_r.
  - rewrite (IH (Add acc t) (a + z)).
    + now rewrite Z.add_assoc.
    + simpl. now rewrite Ha, Ht.
Qed.

Lemma eval_sum_stuck (terms : list expr) (acc : expr) :
  eval m acc = None -> eval m (fold_left Add terms acc) = None.
Proof.
  revert acc. induction terms as [|t terms IH]; intros acc H; simpl; [exact H|].
  apply IH. simpl. now rewrite H.
Qed.

Lemma eval_sum_missing (terms : list expr) (t : expr) :
  In t terms -> eval m t = None ->
  forall acc, eval m (fold_left Add terms acc) = None.
Proof.
  induction terms as [|t' terms IH]; intros Hin Ht acc; [destruct Hin|].
  simpl. destruct Hin as [-> | Hin].
  - apply eval_sum_stuck. simpl. rewrite Ht. now destruct (eval m acc).
  - now apply IH.
Qed.

Lemma eval_times (s : const) (b : bool) (n : Z) :
  n <> 1 -> sort_of s = BoolSort -> bool_interp m (name s) = Some b ->
  eval m (Knapsack.times (Const s) n) = Some (VInt (if b then n else 0)).
Proof.
  intros Hn Hs Hb. unfold Knapsack.times.
  destruct (n =? 1) eqn:E1; [apply Z.eqb_eq in E1; contradiction|].
  destruct (n =? 0) eqn:E0.
  - apply Z.eqb_eq in E0. subst n. now destruct b.
  - simpl. unfold get_interp. rewrite Hs, Hb. simpl. now destruct b.
Qed.

Lemma weighted_terms (sels : list const) (bs : list bool) :
  Forall2 (fun s b => sort_of s = BoolSort /\ bool_interp m (name s) = Some b) sels bs ->
  forall ns, Forall (fun n => n <> 1) ns ->
  exists zs,
    Forall2 (fun t z => eval m t = Some (VInt z))
            (map (fun sn => Knapsack.times (Const (fst sn)) (snd sn)) (combine sels ns)) zs /\
    fold_right Z.add 0 zs = Knapsack.selected_sum bs ns.
Proof.
  induction 1 as [|s b sels bs [Hs Hb] _ IH]; intros ns Hns.
  - exists []. split; [constructor | reflexivity].
  - destruct ns as [|n ns].
    + exists []. split; [constructor | reflexivity].
    + apply Forall_cons_iff in Hns. destruct Hns as [Hn Hns].
      destruct (IH ns Hns) as (zs & Hzs & Hsum).
      exists ((if b then n else 0) :: zs). split.
      * simpl. constructor; [now apply eval_times | exact Hzs].
      * simpl. now rewrite Hsum.
Qed.

End WeightedSum.

Lemma weighted_eval (m : model) (sels : list const) (bs : list bool) (ns : list Z) :
  Forall (fun n => n <> 1) ns ->
  Forall2 (fun s b => sort_of s = BoolSort /\ bool_interp m (name s) = Some b) sels bs ->
  eval m (Knapsack.weighted sels ns) = Some (VInt (Knapsack.selected_sum bs ns)) /\
  forall capacity,
    holds m (Le (Knapsack.weighted sels ns) (Num capacity)) <->
    Knapsack.selected_sum bs ns <= capacity.
Proof.
  intros Hns H. destruct (weighted_terms m sels bs H ns Hns) as (zs & Hzs & Hsum).
  assert (eval m (Knapsack.weighted sels ns)
          = Some (VInt (Knapsack.selected_sum bs ns))) as E.
  { unfold Knapsack.weighted, Knapsack.sum.
    rewrite (eval_sum_from m _ zs Hzs (Num 0) 0 eq_refl). now rewrite Hsum. }
  split; [exact E|]. intro capacity. unfold holds.
  change (eval m (Le (Knapsack.weighted sels ns) (Num capacity)))
    with (option_map VBool
            (bind2 (compare Z.leb Rle_bool) (eval m (Knapsack.weighted sels ns))
                   (Some (VInt capacity)))).
  rewrite E. cbn [bind2 bind compare option_map]. split.
  - intro F. apply some_vbool_true in F. now apply Z.leb_le.
  - intro F. apply Z.leb_le in F. now rewrite F.
Qed.

(** X10: for any selection variables and any numbers other than 1, in a
    model that gives the variables Boolean values the weighted sum has the
    value of the sum of the numbers of the selected items (pairs beyond
    the shorter list are left out, as [zip] does), and the constraint that
    it is at most a capacity holds exactly when that sum is at most the
    capacity. *)
Theorem weighted_value (m : model) (sels : list const) (bs : list bool) (ns : list Z) :
  Forall (fun n => n <> 1) ns ->
  Forall2 (fun s b => sort_of s = BoolSort /\ bool_interp m (name s) = Some b) sels bs ->
  eval m (Knapsack.weighted sels ns) = Some (VInt (Knapsack.selected_sum bs ns)) /\
  forall capacity,
    holds m (Le (Knapsack.weighted sels ns) (Num capacity)) <->
    Knapsack.selected_sum bs ns <= capacity.
Proof. apply weighted_eval. Qed.

Lemma weighted_value_witness :
  eval (Knapsack.model_of Knapsack.printed_selection)
       (Knapsack.weighted Knapsack.selections Knapsack.weights)
  = Some (VInt 70).
Proof.
  apply (weighted_value (Knapsack.model_of Knapsack.printed_selection)
           Knapsack.selections Knapsack.printed_selection Knapsack.weights).
  - repeat constructor; discriminate.
  - repeat constructor.
Defined.

(** X11: among numbers other than 1, when a selection variable that is
    paired with a number other than 0 has no interpretation in the model,
    the weighted sum has no value there.  (A variable paired with 0 is not
    part of the sum.) *)
Theorem weighted_undefined (m : model) (sels : list const) (ns : list Z) (s : const) (n : Z) :
  Forall (fun n => n <> 1) ns ->
  In (s, n) (combine sels ns) -> n <> 0 ->
  sort_of s = BoolSort -> bool_interp m (name s) = None ->
  eval m (Knapsack.weighted sels ns) = None.
Proof.
  intros Hns Hin Hn Hs Hb. unfold Knapsack.weighted, Knapsack.sum.
  apply (eval_sum_missing m _ (Knapsack.times (Const s) n)).
  - apply in_map_iff. now exists (s, n).
  - assert (n <> 1) as Hn1.
    { rewrite Forall_forall in Hns. apply Hns. eapply in_combine_r. eassumption. }
    unfold Knapsack.times.
    destruct (n =? 1) eqn:E1; [apply Z.eqb_eq in E1; contradiction|].
    destruct (n =? 0) eqn:E0; [apply Z.eqb_eq in E0; contradiction|].
    simpl. unfold get_interp. now rewrite Hs, Hb.
Qed.

Lemma weighted_undefined_witness :
  eval (Kinematics.model_of 10 1 20 10 150)
       (Knapsack.weighted Knapsack.selections Knapsack.weights) = None.
Proof.
  apply (weighted_undefined _ _ _ (Bool "item0") 7);
    [repeat constructor; discriminate | now left | discriminate
    | reflexivity | reflexivity].
Defined.

Lemma nothing_selected_sum (bs : list bool) (ns : list Z) :
  Forall (fun b => b = false) bs -> Knapsack.selected_sum bs ns = 0.
Proof.
  intro H. revert ns. induction H as [|b bs -> _ IH]; intro ns; [reflexivity|].
  destruct ns as [|n ns]; [reflexivity|]. simpl. now rewrite IH.
Qed.

(** X12: selecting nothing satisfies the capacity constraint of any items
    with numbers other than 1 exactly when the capacity is not negative;
    so for a capacity that is not negative the constraint always has a
    model. *)
Theorem nothing_selected_fits (sels : list const) (ns : list Z) (capacity : Z) :
  Forall (fun n => n <> 1) ns ->
  Forall (fun s => sort_of s = BoolSort) sels ->
  (is_model Knapsack.nothing_selected
            (add Solver [Le (Knapsack.weighted sels ns) (Num capacity)]) <->
   0 <= capacity).
Proof.
  intros Hns Hs.
  assert (Forall2 (fun s b => sort_of s = BoolSort /\
                              bool_interp Knapsack.nothing_selected (name s) = Some b)
                  sels (map (fun _ => false) sels)) as H.
  { induction Hs as [|s sels Hsort _ IH]; simpl; constructor; auto. }
  destruct (weighted_eval _ _ _ ns Hns H) as [_ Hc].
  unfold is_model, add, Solver. rewrite app_nil_l, Forall_cons_iff, Hc.
  rewrite nothing_selected_sum by (apply Forall_map, Forall_forall; reflexivity).
  split; [tauto | intro; split; [assumption | constructor]].
Qed.

Lemma nothing_selected_fits_witness :
  is_model Knapsack.nothing_selected Knapsack.knapsack.
Proof.
  apply (proj2 (nothing_selected_fits Knapsack.selections Knapsack.weights 80
                  ltac:(repeat constructor; discriminate) ltac:(repeat constructor))).
  lia.
Defined.

(** ** [display]: any template, any model *)

Lemma length_append (s1 s2 : string) :
  String.length (s1 ++ s2) = (String.length s1 + String.length s2)%nat.
Proof. induction s1 as [|c s1 IH]; simpl; [reflexivity | now rewrite IH]. Qed.

Lemma append_assoc (s1 s2 s3 : string) :
  ((s1 ++ s2) ++ s3 = s1 ++ (s2 ++ s3))%string.
Proof. induction s1 as [|c s1 IH]; simpl; [reflexivity | now rewrite IH]. Qed.

Lemma nth_error_cells_none (k : nat) : (81 <= k)%nat -> nth_error Sudoku.cells k = None.
Proof.
  intro H. apply nth_error_None. unfold Sudoku.cells, Py.range.
  now rewrite length_map, length_seq.
Qed.

Section DisplayRuns.

Variable real_str : R -> string.
Variable m : model.

Lemma display_char_placeholder (vs : nat) (c : ascii) :
  Sudoku.is_placeholder c = true -> (vs < 81)%nat ->
  Sudoku.display_char real_str m vs c =
  Some (S vs, Sudoku.str_value real_str (get_interp m (Sudoku.var vs))).
Proof.
  intros Hc Hvs. unfold Sudoku.display_char.
  now rewrite Hc, (nth_error_cells vs Hvs).
Qed.

Lemma display_char_out_of_cells (vs : nat) (c : ascii) :
  Sudoku.is_placeholder c = true -> (81 <= vs)%nat ->
  Sudoku.display_char real_str m vs c = None.
Proof.
  intros Hc Hvs. unfold Sudoku.display_char.
  now rewrite Hc, (nth_error_cells_none vs Hvs).
Qed.

Lemma display_char_structural (vs : nat) (c : ascii) :
  Sudoku.is_placeholder c = false ->
  Sudoku.display_char real_str m vs c = Some (vs, String c "").
Proof. intro Hc. unfold Sudoku.display_char. now rewrite Hc. Qed.

Lemma display_from_within (template : list ascii) :
  forall vs, (vs + Sudoku.placeholders template <= 81)%nat ->
  exists out,
    Sudoku.display_from real_str m vs template =
      Some ((vs + Sudoku.placeholders template)%nat, out) /\
    (String.length out + Sudoku.placeholders template =
     List.length template +
     Sudoku.pieces_length real_str m vs (Sudoku.placeholders template))%nat.
Proof.
  induction template as [|c rest IH]; intros vs Hvs.
  - exists "". simpl. now rewrite Nat.add_0_r.
  - rewrite placeholders_cons in *. simpl Sudoku.display_from.
    destruct (Sudoku.is_placeholder c) eqn:Hc.
    + rewrite display_char_placeholder by (assumption || lia). simpl.
      destruct (IH (S vs)) as (out & Hrun & Hlen); [lia|].
      rewrite Hrun. simpl. eexists. split; [do 2 f_equal; lia|].
      rewrite length_append. unfold Sudoku.pieces_length in *. simpl. lia.
    + rewrite display_char_structural by assumption. simpl.
      destruct (IH vs) as (out & Hrun & Hlen); [lia|].
      rewrite Hrun. simpl. eexists. split; [reflexivity|]. simpl. lia.
Qed.

Lemma display_from_beyond (template : list ascii) :
  forall vs, (0 < Sudoku.placeholders template)%nat ->
             (81 < vs + Sudoku.placeholders template)%nat ->
  Sudoku.display_from real_str m vs template = None.
Proof.
  induction template as [|c rest IH]; intros vs Hp Hvs.
  - unfold Sudoku.placeholders in Hp. simpl in Hp. lia.
  - rewrite placeholders_cons in *. simpl Sudoku.display_from.
    destruct (Sudoku.is_placeholder c) eqn:Hc.
    + destruct (Nat.lt_ge_cases vs 81) as [Hlt | Hge].
      * rewrite display_char_placeholder by assumption. simpl.
        rewrite (IH (S vs)) by lia. reflexivity.
      * now rewrite display_char_out_of_cells.
    + rewrite display_char_structural by assumption. simpl.
      rewrite (IH vs) by lia. reflexivity.
Qed.

Lemma display_from_structural (template : list ascii) (vs : nat) :
  Sudoku.placeholders template = 0%nat ->
  Sudoku.display_from real_str m vs template = Some (vs, string_of_list_ascii template).
Proof.
  induction template as [|c rest IH]; intro Hp; [reflexivity|].
  rewrite placeholders_cons in Hp. simpl Sudoku.display_from.
  destruct (Sudoku.is_placeholder c) eqn:Hc; [lia|].
  rewrite display_char_structural by assumption. simpl.
  rewrite IH by lia. reflexivity.
Qed.

Lemma display_from_app_run (t1 t2 : list ascii) :
  forall vs,
  Sudoku.display_from real_str m vs (t1 ++ t2) =
  (p <- Sudoku.display_from real_str m vs t1 ;;
   q <- Sudoku.display_from real_str m (fst p) t2 ;;
   Some (fst q, (snd p ++ snd q)%string)).
Proof.
  induction t1 as [|c t1 IH]; intro vs; simpl.
  - destruct (Sudoku.display_from real_str m vs t2) as [[vs' out]|]; reflexivity.
  - destruct (Sudoku.display_char real_str m vs c) as [[vs1 piece]|]; simpl; [|reflexivity].
    rewrite IH.
    destruct (Sudoku.display_from real_str m vs1 t1) as [[vs2 out1]|]; simpl; [|reflexivity].
    destruct (Sudoku.display_from real_str m vs2 t2) as [[vs3 out2]|]; simpl; [|reflexivity].
    now rewrite append_assoc.
Qed.

End DisplayRuns.

(** X13: for any model and any template, the generator of [display]
    started at counter [vs] succeeds when the placeholders fit the cells
    that are left ([vs] plus their number is at most 81); it then ends with
    the counter moved by the number of placeholders, and the output is as
    long as the template with each placeholder replaced by the text of its
    cell's value (whatever its length, [None] for a missing value).  When
    they do not fit it fails, on the index of [cells].  A template without
    placeholders comes back unchanged from any counter.  On the puzzle
    itself [display] therefore returns a string for every model. *)
Theorem display_from_runs (real_str : R -> string) (m : model) :
  (forall template vs, (vs + Sudoku.placeholders template <= 81)%nat ->
     exists out,
       Sudoku.display_from real_str m vs template =
         Some ((vs + Sudoku.placeholders template)%nat, out) /\
       (String.length out + Sudoku.placeholders template =
        List.length template +
        Sudoku.pieces_length real_str m vs (Sudoku.placeholders template))%nat) /\
  (forall template vs, (0 < Sudoku.placeholders template)%nat ->
     (81 < vs + Sudoku.placeholders template)%nat ->
     Sudoku.display_from real_str m vs template = None) /\
  (forall template vs, Sudoku.placeholders template = 0%nat ->
     Sudoku.display_from real_str m vs template =
     Some (vs, string_of_list_ascii template)) /\
  (exists out, Sudoku.display real_str m = Some out).
Proof.
  split; [|split; [|split]].
  - intros. now apply display_from_within.
  - intros. now apply display_from_beyond.
  - intros. now apply display_from_structural.
  - destruct (display_from_within real_str m (list_ascii_of_string Sudoku.puzzle) 0)
      as (out & Hrun & _); [apply Nat.le_refl|].
    exists out. unfold Sudoku.display. now rewrite Hrun.
Qed.

(** X14: the generator of [display] on two templates one after the other
    is the run on the first followed by the run on the second from the
    counter the first ended with, the outputs joined; it fails when either
    run fails. *)
Theorem display_from_app (real_str : R -> string) (m : model)
        (t1 t2 : list ascii) (vs : nat) :
  Sudoku.display_from real_str m vs (t1 ++ t2) =
  (p <- Sudoku.display_from real_str m vs t1 ;;
   q <- Sudoku.display_from real_str m (fst p) t2 ;;
   Some (fst q, (snd p ++ snd q)%string)).
Proof. apply display_from_app_run. Qed.

(** ** [display]: reading the output back as a template *)

Lemma digit_char_is_clue (z : Z) :
  1 <= z <= 9 ->
  Sudoku.is_placeholder (Sudoku.digit_char z) = true /\
  Sudoku.is_clue (Sudoku.digit_char z) = true /\
  Z.of_nat (nat_of_ascii (Sudoku.digit_char z) - 48) = z.
Proof.
  intro H.
  assert (z = 1 \/ z = 2 \/ z = 3 \/ z = 4 \/ z = 5 \/ z = 6 \/ z = 7 \/ z = 8 \/ z = 9)
    as Hz by lia.
  repeat (destruct Hz as [-> | Hz]; [repeat split; reflexivity|]).
  subst z. repeat split; reflexivity.
Qed.

Lemma combine_seq_map {A} (g : nat -> A) (n : nat) :
  forall a, combine (seq a n) (map g (seq a n)) = map (fun k => (k, g k)) (seq a n).
Proof. induction n as [|n IH]; intro a; simpl; [reflexivity | now rewrite IH]. Qed.

Lemma flat_map_singletons {A B} (f : A -> list B) (h : A -> B) (l : list A) :
  (forall x, In x l -> f x = [h x]) -> flat_map f l = map h l.
Proof.
  induction l as [|x l IH]; intro H; simpl; [reflexivity|].
  rewrite (H x) by now left. simpl. f_equal. apply IH. intros y Hy. apply H. now right.
Qed.

Section ReadBack.

Variable real_str : R -> string.
Variable m : model.
Hypothesis Hvalues :
  forall k, (k < 81)%nat -> exists z, int_interp m (Py.str_nat k) = Some z /\ 1 <= z <= 9.

Lemma values_single_digits : Sudoku.single_digits m.
Proof.
  intros k Hk. destruct (Hvalues k Hk) as [z [Hz Hb]].
  exists z. split; [assumption | lia].
Qed.

Lemma cell_digit_range (k : nat) : (k < 81)%nat -> 1 <= Sudoku.cell_digit m k <= 9.
Proof.
  intro Hk. unfold Sudoku.cell_digit. now destruct (Hvalues k Hk) as [z [-> Hb]].
Qed.

Lemma display_from_placeholders (template : list ascii) :
  forall vs, (vs + Sudoku.placeholders template <= 81)%nat ->
  exists out,
    Sudoku.display_from real_str m vs template =
      Some ((vs + Sudoku.placeholders template)%nat, out) /\
    filter Sudoku.is_placeholder (list_ascii_of_string out) =
    map (fun k => Sudoku.digit_char (Sudoku.cell_digit m k))
        (seq vs (Sudoku.placeholders template)).
Proof.
  induction template as [|c rest IH]; intros vs Hvs.
  - exists "". simpl. now rewrite Nat.add_0_r.
  - rewrite placeholders_cons in *. simpl Sudoku.display_from.
    destruct (Sudoku.is_placeholder c) eqn:Hc.
    + rewrite (display_char_digit real_str m values_single_digits)
        by (assumption || lia).
      simpl. destruct (IH (S vs)) as (out & Hrun & Hf); [lia|].
      rewrite Hrun. simpl. eexists. split; [do 2 f_equal; lia|].
      cbn [append list_ascii_of_string filter seq map].
      destruct (digit_char_is_clue (Sudoku.cell_digit m vs)) as [-> _];
        [apply cell_digit_range; lia|].
      now rewrite Hf.
    + rewrite display_char_structural by assumption. simpl.
      destruct (IH vs) as (out & Hrun & Hf); [lia|].
      rewrite Hrun. simpl. eexists. split; [reflexivity|].
      cbn [append list_ascii_of_string filter]. now rewrite Hc.
Qed.

Lemma display_clues :
  exists out,
    Sudoku.display real_str m = Some out /\
    Sudoku.clues_of (list_ascii_of_string out) =
    map (fun k => (k, Sudoku.cell_digit m k)) (seq 0 81).
Proof.
  destruct (display_from_placeholders (list_ascii_of_string Sudoku.puzzle) 0)
    as (out & Hrun & Hf); [apply Nat.le_refl|].
  exists out. split; [unfold Sudoku.display; now rewrite Hrun|].
  change (Sudoku.placeholders (list_ascii_of_string Sudoku.puzzle)) with 81%nat in Hf.
  unfold Sudoku.clues_of, Py.enumerate. rewrite Hf, length_map, length_seq.
  rewrite combine_seq_map, flat_map_concat_map, map_map, <- flat_map_concat_map.
  apply flat_map_singletons. intros k Hk. apply in_seq in Hk. cbn [fst snd].
  destruct (digit_char_is_clue (Sudoku.cell_digit m k)) as (_ & Hclue & Hval);
    [apply cell_digit_range; lia|].
  now rewrite Hclue, Hval.
Qed.

End ReadBack.

(** X15: when every cell has a value from 1 to 9 in the model, the string
    [display] returns is itself a template in which every placeholder is a
    digit: read the way the clue loop reads the puzzle, it gives one clue
    per cell, cell [k] with the model's value for cell [k]. *)
Theorem display_reads_back (real_str : R -> string) (m : model) :
  (forall k, (k < 81)%nat ->
             exists z, int_interp m (Py.str_nat k) = Some z /\ 1 <= z <= 9) ->
  exists out,
    Sudoku.display real_str m = Some out /\
    Sudoku.clues_of (list_ascii_of_string out) =
    map (fun k => (k, Sudoku.cell_digit m k)) (seq 0 81).
Proof. apply display_clues. Qed.

Lemma values_check (m : model) :
  forallb (fun k => match int_interp m (Py.str_nat k) with
                    | Some z => (1 <=? z) && (z <=? 9)
                    | None => false
                    end) (seq 0 81) = true ->
  forall k, (k < 81)%nat ->
            exists z, int_interp m (Py.str_nat k) = Some z /\ 1 <= z <= 9.
Proof.
  intros H k Hk. rewrite forallb_forall in H.
  specialize (H k). destruct (int_interp m (Py.str_nat k)) as [z|].
  - exists z. split; [reflexivity|].
    assert ((1 <=? z) && (z <=? 9) = true) as Hz by (apply H, in_seq; lia). lia.
  - assert (false = true) by (apply H, in_seq; lia). discriminate.
Qed.

Lemma display_reads_back_witness :
  exists out,
    Sudoku.display (fun _ => "") (Sudoku.model_of Sudoku.printed_grid) = Some out /\
    Sudoku.clues_of (list_ascii_of_string out) =
    map (fun k => (k, Sudoku.cell_digit (Sudoku.model_of Sudoku.printed_grid) k))
        (seq 0 81).
Proof.
  apply display_reads_back. apply values_check. vm_compute. reflexivity.
Defined.

(** ** The clue loop on any template *)

Lemma add_clue_none (ic : nat * ascii) : Sudoku.add_clue None ic = None.
Proof. reflexivity. Qed.

Lemma clue_loop_none (l : list (nat * ascii)) : fold_left Sudoku.add_clue l None = None.
Proof. induction l as [|ic l IH]; simpl; [reflexivity | exact IH]. Qed.

Lemma add_clue_blank (s : solver) (i : nat) (c : ascii) :
  Sudoku.is_clue c = false -> Sudoku.add_clue (Some s) (i, c) = Some s.
Proof. intro H. unfold Sudoku.add_clue. simpl. now rewrite H. Qed.

Lemma add_clue_digit (s : solver) (i : nat) (c : ascii) :
  Sudoku.is_clue c = true -> (i < 81)%nat ->
  Sudoku.add_clue (Some s) (i, c) =
  Some (s ++ [Eq (Sudoku.var i) (Num (Z.of_nat (nat_of_ascii c - 48)))]).
Proof.
  intros Hc Hi. unfold Sudoku.add_clue. simpl.
  now rewrite Hc, (nth_error_cells i Hi), (clue_digit c Hc).
Qed.

Lemma add_clue_beyond (s : solver) (i : nat) (c : ascii) :
  Sudoku.is_clue c = true -> (81 <= i)%nat -> Sudoku.add_clue (Some s) (i, c) = None.
Proof.
  intros Hc Hi. unfold Sudoku.add_clue. simpl.
  now rewrite Hc, (nth_error_cells_none i Hi).
Qed.

Lemma clue_loop_from (cs : list ascii) :
  forall start s,
  (forall i c, In (i, c) (combine (seq start (List.length cs)) cs) ->
               Sudoku.is_clue c = true -> (i < 81)%nat) ->
  fold_left Sudoku.add_clue (combine (seq start (List.length cs)) cs) (Some s) =
  Some (s ++ map (fun p => Eq (Sudoku.var (fst p)) (Num (snd p)))
                 (flat_map (fun ic => if Sudoku.is_clue (snd ic)
                                      then [(fst ic, Z.of_nat (nat_of_ascii (snd ic) - 48))]
                                      else [])
                           (combine (seq start (List.length cs)) cs))).
Proof.
  induction cs as [|c cs IH]; intros start s H.
  - simpl. now rewrite app_nil_r.
  - cbn [List.length seq combine fold_left flat_map fst snd] in *.
    destruct (Sudoku.is_clue c) eqn:Hc.
    + rewrite add_clue_digit; [|assumption | apply (H start c); [now left | assumption]].
      rewrite IH by (intros i c' Hin; apply H; now right).
      cbn [app map fst snd]. now rewrite <- app_assoc.
    + rewrite add_clue_blank by assumption.
      cbn [app]. apply IH. intros i c' Hin. apply H. now right.
Qed.

Lemma clue_loop_fails (l : list (nat * ascii)) (i : nat) (c : ascii) :
  In (i, c) l -> Sudoku.is_clue c = true -> (81 <= i)%nat ->
  forall st, fold_left Sudoku.add_clue l st = None.
Proof.
  induction l as [|[j c'] l IH]; intros Hin Hc Hi st; [destruct Hin|].
  simpl. destruct Hin as [E | Hin].
  - injection E as -> ->. destruct st as [s|].
    + rewrite add_clue_beyond by assumption. apply clue_loop_none.
    + apply clue_loop_none.
  - now apply IH.
Qed.

(** X16: on any template, the clue loop only appends to the solver it
    starts from: when every pre-filled digit sits at a placeholder numbered
    below 81, the result is the starting assertions, unchanged and in
    order, followed by one equality per pre-filled digit in template
    order, blanks adding nothing; when a pre-filled digit sits at a
    placeholder numbered 81 or more, the loop fails on the index of
    [cells].  The notebook runs this loop on the puzzle, from the solver
    holding the generic rules and the domain constraint. *)
Theorem clue_loop_appends (template : list ascii) (s : solver) :
  ((forall i c, nth_error (filter Sudoku.is_placeholder template) i = Some c ->
                Sudoku.is_clue c = true -> (i < 81)%nat) ->
   Sudoku.clue_loop template s =
   Some (s ++ map (fun p => Eq (Sudoku.var (fst p)) (Num (snd p)))
                  (Sudoku.clues_of template))) /\
  (forall i c, nth_error (filter Sudoku.is_placeholder template) i = Some c ->
               Sudoku.is_clue c = true -> (81 <= i)%nat ->
               Sudoku.clue_loop template s = None) /\
  Sudoku.s =
    (g <- Sudoku.s_generic ;;
     s' <- Sudoku.clue_loop (list_ascii_of_string Sudoku.puzzle) g ;;
     x <- nth_error Sudoku.cells 0 ;;
     Some (add s' [Ne x (Num 5)])).
Proof.
  split; [|split; [|reflexivity]].
  - intro H. unfold Sudoku.clue_loop, Sudoku.clues_of, Py.enumerate.
    apply clue_loop_from. intros i c Hin. apply H.
    now apply (in_enumerate (filter Sudoku.is_placeholder template)).
  - intros i c Hn Hc Hi. unfold Sudoku.clue_loop.
    apply (clue_loop_fails _ i c); try assumption. now apply in_enumerate.
Qed.

(** ** [cell] and the bounds of the grid *)

Lemma index_cells (k : Z) :
  (0 <= k < 81 -> Py.index Sudoku.cells k = Some (Sudoku.var (Z.to_nat k))) /\
  (-81 <= k < 0 -> Py.index Sudoku.cells k = Some (Sudoku.var (Z.to_nat (k + 81)))) /\
  (k < -81 \/ 81 <= k -> Py.index Sudoku.cells k = None).
Proof.
  unfold Py.index. change (Z.of_nat (List.length Sudoku.cells)) with 81.
  split; [|split]; intro H.
  - replace (k <? 0) with false by lia. apply nth_error_cells. lia.
  - replace (k <? 0) with true by lia. replace (k + 81 <? 0) with false by lia.
    apply nth_error_cells. lia.
  - destruct H as [H | H].
    + replace (k <? 0) with true by lia. now replace (k + 81 <? 0) with true by lia.
    + replace (k <? 0) with false by lia. apply nth_error_cells_none. lia.
Qed.

(** X17: for any Python integers, [cell(R, C, r, c)] with
    [k = 9*(3R+r) + 3C + c] returns the variable numbered [k] when
    [0 <= k < 81], the variable numbered [k + 81] when [-81 <= k < 0] (a
    negative index counts from the end) and raises otherwise.  On
    arguments that are not negative this is [cell] as used for the blocks,
    for which an offset of 3 is the same as the next block, so offsets
    beyond a block do not fail but reach a neighbour. *)
Theorem cell_bounds :
  (forall R C r c : Z,
     let k := 9 * (3 * R + r) + 3 * C + c in
     (0 <= k < 81 -> Sudoku.cell_at R C r c = Some (Sudoku.var (Z.to_nat k))) /\
     (-81 <= k < 0 -> Sudoku.cell_at R C r c = Some (Sudoku.var (Z.to_nat (k + 81)))) /\
     (k < -81 \/ 81 <= k -> Sudoku.cell_at R C r c = None)) /\
  (forall R C r c : nat,
     Sudoku.cell_at (Z.of_nat R) (Z.of_nat C) (Z.of_nat r) (Z.of_nat c) =
     Sudoku.cell R C r c) /\
  (forall R C r c : nat,
     ((Sudoku.cell_index R C r c < 81)%nat ->
      Sudoku.cell R C r c = Some (Sudoku.var (Sudoku.cell_index R C r c))) /\
     ((81 <= Sudoku.cell_index R C r c)%nat -> Sudoku.cell R C r c = None) /\
     Sudoku.cell R C (r + 3) c = Sudoku.cell (R + 1) C r c /\
     Sudoku.cell R C r (c + 3) = Sudoku.cell R (C + 1) r c).
Proof.
  split; [|split].
  - intros R C r c k. unfold Sudoku.cell_at. fold k. apply index_cells.
  - intros R C r c. unfold Sudoku.cell_at, Sudoku.cell.
    assert (9 * (3 * Z.of_nat R + Z.of_nat r) + 3 * Z.of_nat C + Z.of_nat c
            = Z.of_nat (Sudoku.cell_index R C r c)) as ->
        by (unfold Sudoku.cell_index; lia).
    unfold Py.index.
    assert ((Z.of_nat (Sudoku.cell_index R C r c) <? 0) = false) as ->
        by (apply Z.ltb_ge, Nat2Z.is_nonneg).
    now rewrite Nat2Z.id.
  - intros R C r c. unfold Sudoku.cell. split; [|split; [|split]].
    + apply nth_error_cells.
    + apply nth_error_cells_none.
    + f_equal. unfold Sudoku.cell_index. lia.
    + f_equal. unfold Sudoku.cell_index. lia.
Qed.

(** ** Sudoku: every solution is a model *)

Lemma lookup_combine (keys : list string) (vals : list Z) :
  NoDup keys ->
  forall i k v, nth_error keys i = Some k -> nth_error vals i = Some v ->
  option_map snd (find (fun p => String.eqb (fst p) k) (combine keys vals)) = Some v.
Proof.
  intro Hnd. revert vals. induction Hnd as [|k0 ks Hk0 _ IH]; intros vals i k v Hk Hv.
  - now destruct i.
  - destruct vals as [|v0 vs]; [now destruct i|].
    destruct i as [|i]; simpl in Hk, Hv.
    + injection Hk as <-. injection Hv as <-. simpl. now rewrite String.eqb_refl.
    + simpl. destruct (String.eqb k0 k) eqn:E.
      * apply String.eqb_eq in E. subst k0. exfalso. apply Hk0.
        eapply nth_error_In; eassumption.
      * now apply (IH vs i).
Qed.

Lemma model_of_grid (grid : list Z) :
  List.length grid = 81%nat -> Sudoku.is_grid_of (Sudoku.model_of grid) grid.
Proof.
  intro Hlen. split; [exact Hlen|]. intros i Hi.
  unfold Sudoku.model_of. cbn [int_interp].
  apply (lookup_combine (map name Sudoku.cells) grid) with (i := i).
  - now apply names_NoDup.
  - now rewrite nth_error_map, (nth_error_cells i Hi).
  - apply nth_error_nth'. now rewrite Hlen.
Qed.

Lemma NoDup_holds_Distinct (m : model) (es : list expr) (zs : list Z) :
  Forall2 (fun e z => eval m e = Some (VInt z)) es zs ->
  NoDup zs -> holds m (Distinct es).
Proof.
  intros H Hnd. unfold holds. simpl.
  rewrite (sequence_ints m es zs H). simpl.
  now rewrite pairwise_distinct_ints, (nodupb_Z zs Hnd).
Qed.

Lemma one_to_nine_NoDup : NoDup Sudoku.one_to_nine.
Proof. apply (nodupb_NoDup Z.eqb Z.eqb_eq). reflexivity. Qed.

Lemma unit_holds (m : model) (grid : list Z) (ks : list nat) :
  Sudoku.is_grid_of m grid -> Forall (fun k => (k < 81)%nat) ks ->
  Permutation (Sudoku.at_indices grid ks) Sudoku.one_to_nine ->
  holds m (Sudoku.distinct_cells ks).
Proof.
  intros Hg Hks Hp. apply (NoDup_holds_Distinct m _ (Sudoku.at_indices grid ks)).
  - now apply cell_values.
  - apply (Permutation_NoDup (Permutation_sym Hp)). exact one_to_nine_NoDup.
Qed.

Lemma solved_range (grid : list Z) (k : nat) :
  Sudoku.solved grid -> (k < 81)%nat -> 1 <= nth k grid 0 /\ nth k grid 0 < 10.
Proof.
  intros (Hrows & _ & _) Hk.
  assert (In (nth k grid 0) Sudoku.one_to_nine) as Hin.
  { apply (Permutation_in _ (Hrows (k / 9)%nat ltac:(apply Nat.Div0.div_lt_upper_bound; lia))).
    unfold Sudoku.grid_row, Sudoku.at_indices, Sudoku.row_indices.
    rewrite map_map. apply in_map_iff. exists (k mod 9)%nat. split.
    - f_equal. symmetry. apply Nat.div_mod_eq.
    - apply in_seq. pose proof (Nat.mod_upper_bound k 9). lia. }
  unfold Sudoku.one_to_nine in Hin. simpl in Hin. lia.
Qed.

Lemma holds_int_ne_num (m : model) (n : string) (d : Z) :
  holds m (Ne (Int n) (Num d)) <-> exists z, int_interp m n = Some z /\ z <> d.
Proof.
  unfold holds. simpl. unfold get_interp. simpl.
  destruct (int_interp m n) as [z|]; simpl.
  - split.
    + intro H. apply some_vbool_true, negb_true_iff, Z.eqb_neq in H. now exists z.
    + intros [z' [E H]]. apply some_inj in E. subst z'.
      apply Z.eqb_neq in H. now rewrite H.
  - split; [discriminate | intros [z [E _]]; discriminate].
Qed.

Lemma solved_grid_model (grid : list Z) (s : solver) :
  List.length grid = 81%nat -> Sudoku.solved grid -> Sudoku.agrees_with_clues grid ->
  nth 0 grid 0 <> 5 ->
  Sudoku.s = Some s -> is_model (Sudoku.model_of grid) s.
Proof.
  intros Hlen Hsolved Hclues Hextra Hs.
  rewrite sudoku_s in Hs. apply some_inj in Hs. subst s.
  pose proof (model_of_grid grid Hlen) as Hg.
  destruct indices_below_81 as (Brow & Bcol & Bbox).
  pose proof Hsolved as (Hrows & Hcols & Hblocks).
  unfold is_model. rewrite !Forall_app. repeat split.
  - apply Forall_forall. intros e He.
    change Sudoku.rows
      with (map (fun row => Sudoku.distinct_cells (Sudoku.row_indices row)) (seq 0 9)) in He.
    apply in_map_iff in He. destruct He as [row [<- Hrow]]. apply in_seq in Hrow.
    apply (unit_holds _ grid); [assumption | apply Brow; lia | apply Hrows; lia].
  - apply Forall_forall. intros e He.
    change Sudoku.cols
      with (map (fun col => Sudoku.distinct_cells (Sudoku.col_indices col)) (seq 0 9)) in He.
    apply in_map_iff in He. destruct He as [col [<- Hcol]]. apply in_seq in Hcol.
    apply (unit_holds _ grid); [assumption | apply Bcol; lia | apply Hcols; lia].
  - apply Forall_forall. intros e He.
    apply in_map_iff in He. destruct He as [[R C] [<- Hp]]. apply in_sq3x3 in Hp.
    destruct Hp as [HR HC]. cbn [fst snd].
    rewrite block_indices_box by assumption.
    apply (unit_holds _ grid); [assumption | now apply Bbox | now apply Hblocks].
  - unfold in_range. rewrite map_map. apply Forall_map. unfold Sudoku.cells.
    apply Forall_map. apply Forall_forall. intros k Hk. apply in_seq in Hk.
    apply holds_bounds_int. exists (nth k grid 0). split.
    + apply Hg. lia.
    + apply solved_range; [assumption | lia].
  - unfold Sudoku.clue_equalities. apply Forall_map. apply Forall_forall.
    intros [i d] Hin. cbn [fst snd]. apply holds_int_eq_num.
    apply in_clues in Hin. destruct Hin as (c & Hi & Hc & Hd).
    assert (i < 81)%nat as Hlt.
    { change 81%nat with (List.length Sudoku.start_cells).
      apply nth_error_Some. now rewrite Hi. }
    destruct Hg as [_ Hg]. rewrite (Hg i Hlt). f_equal. now apply (Hclues i c d).
  - constructor; [|constructor]. apply holds_int_ne_num.
    exists (nth 0 grid 0). split; [|assumption].
    destruct Hg as [_ Hg]. apply (Hg 0%nat). lia.
Qed.

(** X18: the constraints leave out no solution but those with 5 in cell 0:
    every grid of 81 values whose rows, columns and blocks are
    permutations of 1..9, which agrees with the digits of the template and
    does not have 5 in its first cell, gives a model of everything the
    solver holds when it is checked. *)
Theorem solved_grid_is_model (grid : list Z) (s : solver) :
  List.length grid = 81%nat -> Sudoku.solved grid -> Sudoku.agrees_with_clues grid ->
  nth 0 grid 0 <> 5 ->
  Sudoku.s = Some s -> is_model (Sudoku.model_of grid) s.
Proof. apply solved_grid_model. Qed.

Lemma printed_grid_solved : Sudoku.solved Sudoku.printed_grid.
Proof.
  assert (forall l, List.length l = 9%nat -> Py.nodupb Z.eqb l = true ->
                    forallb (fun z => (1 <=? z) && (z <? 10)) l = true ->
                    Permutation l Sudoku.one_to_nine) as Hcheck.
  { intros l Hlen Hnd Hr. apply permutation_one_to_nine; [assumption | |].
    - now apply (nodupb_NoDup Z.eqb Z.eqb_eq).
    - apply Forall_forall. intros z Hz. rewrite forallb_forall in Hr.
      specialize (Hr z Hz). lia. }
  split; [|split].
  - intros row H. do 9 (destruct row as [|row]; [now apply Hcheck|]). lia.
  - intros col H. do 9 (destruct col as [|col]; [now apply Hcheck|]). lia.
  - intros R C HR HC.
    do 3 (destruct R as [|R]; [do 3 (destruct C as [|C]; [now apply Hcheck|]); lia|]). lia.
Qed.

Lemma printed_grid_agrees : Sudoku.agrees_with_clues Sudoku.printed_grid.
Proof.
  intros i c d Hi Hc Hd.
  assert (In (i, d) Sudoku.clues) as Hin by (apply in_clues; now exists c).
  assert (forallb (fun p => nth (fst p) Sudoku.printed_grid 0 =? snd p) Sudoku.clues = true)
    as H by reflexivity.
  rewrite forallb_forall in H. specialize (H (i, d) Hin). now apply Z.eqb_eq in H.
Qed.

(** The printed grid is such a solution. *)
Lemma solved_grid_is_model_witness :
  exists s, Sudoku.s = Some s /\ is_model (Sudoku.model_of Sudoku.printed_grid) s.
Proof.
  eexists. split; [apply sudoku_s|].
  apply solved_grid_is_model.
  - reflexivity.
  - exact printed_grid_solved.
  - exact printed_grid_agrees.
  - discriminate.
  - apply sudoku_s.
Defined.

(** ** Rows and columns as slices *)

Lemma in_row_indices (row k : nat) :
  (k < 81)%nat -> (In k (Sudoku.row_indices row) <-> row = (k / 9)%nat).
Proof.
  intro Hk. unfold Sudoku.row_indices. rewrite in_map_iff. split.
  - intros [c [E Hc]]. apply in_seq in Hc.
    apply (Nat.div_unique k 9 row c); lia.
  - intros ->. exists (k mod 9)%nat. split.
    + symmetry. apply Nat.div_mod_eq.
    + apply in_seq. pose proof (Nat.mod_upper_bound k 9). lia.
Qed.

Lemma in_col_indices (col k : nat) :
  (k < 81)%nat -> (col < 9)%nat ->
  (In k (Sudoku.col_indices col) <-> col = (k mod 9)%nat).
Proof.
  intros Hk Hcol. unfold Sudoku.col_indices. rewrite in_map_iff. split.
  - intros [r [E Hr]]. apply (Nat.mod_unique k 9 r col); lia.
  - intros ->. exists (k / 9)%nat. split.
    + symmetry. apply Nat.div_mod_eq.
    + apply in_seq. split; [lia|]. apply Nat.Div0.div_lt_upper_bound. lia.
Qed.

(** X19: the slices [cells[r:r+9]] for [r] in [range(0, 81, 9)] are the
    nine grid rows and the slices [cells[c::9]] the nine grid columns, in
    order; cell [k] is in the row constraint numbered [k / 9] and in no
    other, and in the column constraint numbered [k mod 9] and in no
    other. *)
Theorem rows_and_cols_are_slices :
  Sudoku.rows =
    map (fun row => Sudoku.distinct_cells (Sudoku.row_indices row)) (seq 0 9) /\
  Sudoku.cols =
    map (fun col => Sudoku.distinct_cells (Sudoku.col_indices col)) (seq 0 9) /\
  (forall k row, (k < 81)%nat ->
     (In k (Sudoku.row_indices row) <-> row = (k / 9)%nat)) /\
  (forall k col, (k < 81)%nat -> (col < 9)%nat ->
     (In k (Sudoku.col_indices col) <-> col = (k mod 9)%nat)).
Proof.
  split; [reflexivity|]. split; [reflexivity|]. split.
  - intros k row Hk. now apply in_row_indices.
  - intros k col Hk Hcol. now apply in_col_indices.
Qed.

(** ** [Distinct] together with [in_range] *)

Lemma ranged_values (m : model) (lo hi : Z) (names : list string) :
  is_model m (in_range lo hi (map (fun n => Const (Int n)) names)) ->
  exists zs,
    Forall2 (fun e z => eval m e = Some (VInt z)) (map (fun n => Const (Int n)) names) zs /\
    Forall (fun z => lo <= z /\ z < hi) zs.
Proof.
  induction names as [|n names IH]; intro H.
  - exists []. split; constructor.
  - simpl in H. apply Forall_cons_iff in H. destruct H as [Hn H].
    destruct (IH H) as (zs & Hzs & Hr).
    apply holds_bounds_int in Hn. destruct Hn as (z & Hz & Hb).
    exists (z :: zs). split; constructor; auto. now apply eval_int.
Qed.

Lemma interval_count (lo hi : Z) (zs : list Z) :
  NoDup zs -> Forall (fun z => lo <= z /\ z < hi) zs ->
  Z.of_nat (List.length zs) <= Z.max 0 (hi - lo).
Proof.
  intros Hnd Hr.
  set (interval := map (fun i => lo + Z.of_nat i) (seq 0 (Z.to_nat (hi - lo)))).
  assert (List.length zs <= List.length interval)%nat as H.
  { apply NoDup_incl_length; [assumption|]. intros z Hz.
    rewrite Forall_forall in Hr. specialize (Hr z Hz).
    apply in_map_iff. exists (Z.to_nat (z - lo)). split; [lia | apply in_seq; lia]. }
  unfold interval in H. rewrite length_map, length_seq in H. lia.
Qed.

(** X20: a [Distinct] over integer variables together with [in_range] for
    the same variables has a model only when there are at most [hi - lo]
    of them: the values are different integers of the interval. *)
Theorem distinct_in_range_count (m : model) (lo hi : Z) (names : list string) :
  holds m (Distinct (map (fun n => Const (Int n)) names)) ->
  is_model m (in_range lo hi (map (fun n => Const (Int n)) names)) ->
  Z.of_nat (List.length names) <= Z.max 0 (hi - lo).
Proof.
  intros Hd Hr. destruct (ranged_values m lo hi names Hr) as (zs & Hzs & Hb).
  assert (List.length zs = List.length names) as <-.
  { apply Forall2_length in Hzs. now rewrite length_map in Hzs. }
  apply interval_count; [|assumption].
  now apply (holds_Distinct_ints m _ zs Hzs).
Qed.

Lemma distinct_in_range_count_witness :
  Z.of_nat (List.length ["S"; "E"; "N"; "D"; "M"; "O"; "R"; "Y"]) <= Z.max 0 (10 - 0).
Proof.
  apply (distinct_in_range_count (Cryptarithm.model_of [9; 5; 6; 7; 1; 0; 8; 2]));
    [vm_compute; reflexivity | apply is_model_forallb; vm_compute; reflexivity].
Defined.
